(** * Calendar synchronisation services of artful-agenda

    A shallow embedding of [src/services/calendarSync.ts] (class
    [CalendarSyncService]) and [src/services/realtimeSync.ts] (class
    [RealtimeSyncService]), and the properties of the synchronisation
    engine proved or refuted on it.

    Definitions come first: [Js] holds the fragment of JavaScript the two
    services run on (values, property access, exceptions, the date
    built-ins); [Ecma] is a runnable instance of the date built-ins;
    [CalendarSync] and [RealtimeSync] embed the two classes; [Push] and
    [RealtimeCalls] add [pushEvent] and sequences of calls; [SyncQueue]
    is the queue the specification puts in front of the realtime channel;
    [Samples] holds concrete data and [Notions] the vocabulary of the
    statements. The theorems follow, one module per component. *)

From Stdlib Require Import ZArith String Ascii List Lia Bool DecimalString.
From stdpp Require Import gmap strings list fin_maps relations.

#[local] Set Warnings "-register-all".

Local Open Scope string_scope.
Local Open Scope Z_scope.

(* ===================================================================== *)
(** * The JavaScript fragment                                             *)
(* ===================================================================== *)

Module Js.

(** A JavaScript number as the services use it: an epoch value in
    milliseconds, or [NaN] (what [Date.parse] answers on a string it cannot
    read, and the time value of an Invalid Date). Time values are whole
    numbers of milliseconds, so the finite ones are taken in [Z]. *)
Inductive number := NaN | Num (z : Z).

(** [a > b]: false as soon as one side is [NaN]. *)
Definition gt (a b : number) : bool :=
  match a, b with
  | Num x, Num y => y <? x
  | _, _ => false
  end.

(** What a provider answers, once axios has parsed the JSON body, and what
    reading a property of it can give ([VUndefined]). Objects keep their
    properties as an association list. *)
Inductive value :=
| VUndefined
| VNull
| VBool (b : bool)
| VNum (n : number)
| VStr (s : string)
| VArr (items : list value)
| VObj (fields : list (string * value)).

Inductive JsError :=
| TypeError
| RangeError
| AxiosError (status : option Z).

(** A computation that returns or throws. *)
Inductive result (A : Type) :=
| Ok (a : A)
| Throw (e : JsError).
Arguments Ok {A} a.
Arguments Throw {A} e.

#[global] Instance result_ret : MRet result := fun A a => Ok a.
#[global] Instance result_fmap : FMap result := fun A B f m =>
  match m with
  | Ok a => Ok (f a)
  | Throw e => Throw e
  end.
#[global] Instance result_bind : MBind result := fun A B k m =>
  match m with
  | Ok a => k a
  | Throw e => Throw e
  end.

(** [xs.map(f)] for a callback that may throw: the first exception ends the
    whole call. *)
Fixpoint mapM {A B} (f : A -> result B) (xs : list A) : result (list B) :=
  match xs with
  | [] => Ok []
  | x :: rest => y ← f x; ys ← mapM f rest; Ok (y :: ys)
  end.

Fixpoint assoc (k : string) (fs : list (string * value)) : value :=
  match fs with
  | [] => VUndefined
  | (k', v) :: rest => if String.eqb k k' then v else assoc k rest
  end.

(** [v.k] for the property names the services read (none of them is a
    member of a built-in prototype): a [TypeError] on [undefined] and
    [null], the own property of an object, [undefined] elsewhere. *)
Definition get (v : value) (k : string) : result value :=
  match v with
  | VUndefined | VNull => Throw TypeError
  | VObj fs => Ok (assoc k fs)
  | _ => Ok VUndefined
  end.

Definition truthy (v : value) : bool :=
  match v with
  | VUndefined | VNull => false
  | VBool b => b
  | VNum NaN => false
  | VNum (Num z) => negb (z =? 0)
  | VStr s => negb (String.eqb s "")
  | VArr _ | VObj _ => true
  end.

Definition hasKey (k : string) (fs : list (string * value)) : bool :=
  existsb (fun kv => String.eqb k (fst kv)) fs.

(** Whether [ToPrimitive] succeeds on [v]. The objects at hand come out
    of [JSON.parse] or out of an object literal of the service, so no
    property of theirs is callable and their prototype is the built-in
    one. Converting such an object tries its [valueOf], which is skipped
    when own (not callable) and hands back the object itself when
    inherited, and its [toString]: the inherited one answers, an own one
    is not callable, and then the conversion throws a [TypeError]. An
    array is converted by joining the conversions of its elements. *)
Fixpoint convertible (v : value) : bool :=
  match v with
  | VObj fs => negb (hasKey "toString" fs)
  | VArr items => forallb convertible items
  | _ => true
  end.

(** The built-ins of the JavaScript runtime the services call. They are not
    code of the repository, so the embedding takes them as given:
    [Date.parse] on a string, the [ToString] conversion of a value that is
    not a string (consulted only on a value that is [convertible]), and
    [Date.prototype.toISOString] on a valid time value. *)
Record Runtime := {
  Date_parse : string -> number;
  ToString : value -> string;
  toISOString : Z -> string
}.

Definition maxTime : Z := 8640000000000000.

(** [TimeClip]: a time value out of the range of [Date] is [NaN]. *)
Definition timeClip (n : number) : number :=
  match n with
  | NaN => NaN
  | Num z => if Z.abs z <=? maxTime then Num z else NaN
  end.

Section WithRuntime.
Variable rt : Runtime.

(** [Date.parse(v)]: [v] is converted to a string first, which throws a
    [TypeError] when [v] cannot be converted. *)
Definition parseValue (v : value) : result number :=
  match v with
  | VStr s => Ok (Date_parse rt s)
  | _ => if convertible v then Ok (Date_parse rt (ToString rt v))
         else Throw TypeError
  end.

(** The time value of [new Date(v)]: an object or an array is converted
    to a primitive first, which throws a [TypeError] when it cannot be. *)
Definition newDate (v : value) : result number :=
  match v with
  | VUndefined => Ok NaN
  | VNull => Ok (Num 0)
  | VBool b => Ok (Num (if b then 1 else 0))
  | VNum n => Ok (timeClip n)
  | VStr s => Ok (Date_parse rt s)
  | VArr _ | VObj _ =>
      if convertible v then Ok (Date_parse rt (ToString rt v))
      else Throw TypeError
  end.

(** [d.toISOString()]: a [RangeError] on an Invalid Date. *)
Definition isoString (d : number) : result value :=
  match d with
  | NaN => Throw RangeError
  | Num t => Ok (VStr (toISOString rt t))
  end.
End WithRuntime.

End Js.

(* ===================================================================== *)
(** * A runnable instance of the date built-ins                           *)
(* ===================================================================== *)

(** [Ecma.runtime] follows ECMAScript on the strings it reads: the
    date-time format [YYYY-MM-DDTHH:mm:ss], with an optional [.sss] and a
    time zone ([Z] or [+HH:mm] / [-HH:mm]), years of four digits or signed
    with six. Every other string is answered with [NaN], so the instance
    stands for the real parser on strings of that form only. It serves to
    run the services on concrete payloads. *)
Module Ecma.
Import Js.

Definition msPerDay : Z := 86400000.

(** Days since 1970-01-01 of a date of the proleptic Gregorian calendar. *)
Definition daysFromCivil (y m d : Z) : Z :=
  let y' := if m <=? 2 then y - 1 else y in
  let era := y' / 400 in
  let yoe := y' - era * 400 in
  let doy := (153 * (if 2 <? m then m - 3 else m + 9) + 2) / 5 + d - 1 in
  let doe := yoe * 365 + yoe / 4 - yoe / 100 + doy in
  era * 146097 + doe - 719468.

Definition civilFromDays (z : Z) : Z * Z * Z :=
  let z' := z + 719468 in
  let era := z' / 146097 in
  let doe := z' - era * 146097 in
  let yoe := (doe - doe / 1460 + doe / 36524 - doe / 146096) / 365 in
  let doy := doe - (365 * yoe + yoe / 4 - yoe / 100) in
  let mp := (5 * doy + 2) / 153 in
  let d := doy - (153 * mp + 2) / 5 + 1 in
  let m := if mp <? 10 then mp + 3 else mp - 9 in
  let y := yoe + era * 400 in
  ((if m <=? 2 then y + 1 else y), m, d).

Definition isLeap (y : Z) : bool :=
  ((y mod 4 =? 0) && negb (y mod 100 =? 0)) || (y mod 400 =? 0).

Definition daysInMonth (y m : Z) : Z :=
  if m =? 2 then (if isLeap y then 29 else 28)
  else if (m =? 4) || (m =? 6) || (m =? 9) || (m =? 11) then 30
  else 31.

Definition digitChar (d : Z) : ascii := ascii_of_nat (48 + Z.to_nat d).

(** The [w] low decimal digits of [n], zero padded. *)
Fixpoint padded (w : nat) (n : Z) : string :=
  match w with
  | O => ""
  | S w' => padded w' (n / 10) +:+ String (digitChar (n mod 10)) ""
  end.

Definition yearString (y : Z) : string :=
  if (0 <=? y) && (y <=? 9999) then padded 4 y
  else if y <? 0 then "-" +:+ padded 6 (- y)
  else "+" +:+ padded 6 y.

Definition toISOString (t : Z) : string :=
  let '(y, m, d) := civilFromDays (t / msPerDay) in
  let ms := t mod msPerDay in
  yearString y +:+ "-" +:+ padded 2 m +:+ "-" +:+ padded 2 d +:+ "T"
  +:+ padded 2 (ms / 3600000) +:+ ":" +:+ padded 2 (ms / 60000 mod 60)
  +:+ ":" +:+ padded 2 (ms / 1000 mod 60) +:+ "." +:+ padded 3 (ms mod 1000)
  +:+ "Z".

Definition digitOf (c : ascii) : option Z :=
  let n := Z.of_nat (nat_of_ascii c) in
  if (48 <=? n) && (n <=? 57) then Some (n - 48) else None.

(** Exactly [w] decimal digits at the head of [cs]. *)
Fixpoint readNum (w : nat) (acc : Z) (cs : list ascii) : option (Z * list ascii) :=
  match w with
  | O => Some (acc, cs)
  | S w' =>
      match cs with
      | c :: rest =>
          match digitOf c with
          | Some d => readNum w' (10 * acc + d) rest
          | None => None
          end
      | [] => None
      end
  end.

Definition readChar (c : ascii) (cs : list ascii) : option (list ascii) :=
  match cs with
  | c' :: rest => if Ascii.eqb c c' then Some rest else None
  | [] => None
  end.

Definition readYear (cs : list ascii) : option (Z * list ascii) :=
  match cs with
  | "+"%char :: rest => readNum 6 0 rest
  | "-"%char :: rest =>
      match readNum 6 0 rest with
      | Some (y, rest') => if y =? 0 then None else Some (- y, rest')
      | None => None
      end
  | _ => readNum 4 0 cs
  end.

Definition readMillis (cs : list ascii) : option (Z * list ascii) :=
  match cs with
  | "."%char :: rest => readNum 3 0 rest
  | _ => Some (0, cs)
  end.

(** The offset of the time zone in minutes; nothing may follow it. *)
Definition readZone (cs : list ascii) : option Z :=
  match cs with
  | ["Z"%char] => Some 0
  | sign :: rest =>
      match readNum 2 0 rest with
      | Some (h, rest1) =>
          match readChar ":" rest1 with
          | Some rest2 =>
              match readNum 2 0 rest2 with
              | Some (m, []) =>
                  if (h <=? 23) && (m <=? 59) then
                    if Ascii.eqb sign "+" then Some (h * 60 + m)
                    else if Ascii.eqb sign "-" then Some (- (h * 60 + m))
                    else None
                  else None
              | _ => None
              end
          | None => None
          end
      | None => None
      end
  | [] => None
  end.

Definition parseChars (cs : list ascii) : option Z :=
  '(y, cs) ← readYear cs;
  cs ← readChar "-" cs;
  '(mo, cs) ← readNum 2 0 cs;
  cs ← readChar "-" cs;
  '(d, cs) ← readNum 2 0 cs;
  cs ← readChar "T" cs;
  '(h, cs) ← readNum 2 0 cs;
  cs ← readChar ":" cs;
  '(mi, cs) ← readNum 2 0 cs;
  cs ← readChar ":" cs;
  '(s, cs) ← readNum 2 0 cs;
  '(ms, cs) ← readMillis cs;
  off ← readZone cs;
  if (1 <=? mo) && (mo <=? 12) && (1 <=? d) && (d <=? daysInMonth y mo)
     && (mi <=? 59) && (s <=? 59)
     && ((h <=? 23) || ((h =? 24) && (mi =? 0) && (s =? 0) && (ms =? 0)))
  then Some (daysFromCivil y mo d * msPerDay
             + h * 3600000 + (mi - off) * 60000 + s * 1000 + ms)
  else None.

Definition Date_parse (s : string) : number :=
  match parseChars (list_ascii_of_string s) with
  | Some t => timeClip (Num t)
  | None => NaN
  end.

Definition joinStrings (parts : list string) : string :=
  match parts with
  | [] => ""
  | p :: rest => fold_left (fun acc q => acc +:+ "," +:+ q) rest p
  end.

(** [ToString]: an array joins its elements with commas, [undefined] and
    [null] elements as empty strings. *)
Fixpoint ToString (v : value) : string :=
  match v with
  | VUndefined => "undefined"
  | VNull => "null"
  | VBool b => if b then "true" else "false"
  | VNum NaN => "NaN"
  | VNum (Num z) => NilZero.string_of_int (Z.to_int z)
  | VStr s => s
  | VObj _ => "[object Object]"
  | VArr items =>
      joinStrings
        (List.map (fun x => match x with
                            | VUndefined | VNull => ""
                            | _ => ToString x
                            end) items)
  end.

Definition runtime : Runtime :=
  {| Js.Date_parse := Date_parse;
     Js.ToString := ToString;
     Js.toISOString := toISOString |}.

End Ecma.

(* ===================================================================== *)
(** * CalendarSyncService ([src/services/calendarSync.ts])                *)
(* ===================================================================== *)

Module CalendarSync.
Import Js.

(** Modelled from the spec: the provider tag of [CalendarSyncConfig], whose
    declaration ([src/types]) is not among the sources. The three known
    providers are the keys of the dispatch tables of the service, which
    are object literals. [custom] stands for a tag that is none of the
    three and names no member of [Object.prototype]: such a tag misses all
    three tables, whatever its spelling. A tag that names a member of
    [Object.prototype] finds that member in every table; the model has no
    configuration with such a tag ([providerOfTag] below). *)
Inductive Provider := google | apple | outlook | custom.

(** The property names every object literal inherits. *)
Definition objectPrototypeMembers : list string :=
  ["constructor"; "__defineGetter__"; "__defineSetter__"; "hasOwnProperty";
   "__lookupGetter__"; "__lookupSetter__"; "isPrototypeOf";
   "propertyIsEnumerable"; "toString"; "valueOf"; "__proto__";
   "toLocaleString"].

(** The provider a tag of a configuration stands for in the model; none
    for a tag that names an inherited member. *)
Definition providerOfTag (tag : string) : option Provider :=
  if String.eqb tag "google" then Some google
  else if String.eqb tag "apple" then Some apple
  else if String.eqb tag "outlook" then Some outlook
  else if existsb (String.eqb tag) objectPrototypeMembers then None
  else Some custom.

(** Modelled from the spec: [CalendarSyncConfig] ([src/types]), with the
    fields the service reads. [conflictResolution] is kept as the string
    the [switch] of [resolveConflict] inspects. *)
Record CalendarSyncConfig := {
  provider : Provider;
  apiEndpoint : string;
  accessToken : string;
  refreshToken : string;
  conflictResolution : string
}.

(** Modelled from the spec: [CalendarEvent] ([src/types]), with the fields
    the normalizers of the service fill. [id], [title] and [description]
    hold whatever the payload had there; the two [Date]s are kept as their
    time values. *)
Record CalendarEvent := {
  id : value;
  title : value;
  startTime : number;
  endTime : number;
  description : value;
  sourceCalendar : string;
  timestamp : number
}.

(** ** Endpoints *)

Definition endpoints (p : Provider) : option string :=
  match p with
  | google => Some "https://www.googleapis.com/calendar/v3/calendars/primary/events"
  | apple => Some "https://caldav.icloud.com"
  | outlook => Some "https://graph.microsoft.com/v1.0/me/calendar/events"
  | custom => None
  end.

Definition getProviderEndpoint (config : CalendarSyncConfig) : string :=
  match endpoints (provider config) with
  | Some e => if String.eqb e "" then apiEndpoint config else e
  | None => apiEndpoint config
  end.

(** What [formatEventForProvider] hands back: a payload built for the
    provider, or the event object it was given. *)
Inductive Formatted :=
| Payload (v : value)
| Same (event : CalendarEvent).

(** ** Normalisation *)

Section Adapters.
Variable rt : Runtime.

(** [a || b], with [b] read only when [a] is falsy. *)
Definition orElse (a : value) (b : result value) : result value :=
  if truthy a then Ok a else b.

(** The three callbacks handed to [items.map]. *)
Definition google_item (item : value) : result CalendarEvent :=
  i ← get item "id";
  t ← get item "summary";
  s ← get item "start";
  sdt ← get s "dateTime";
  sv ← orElse sdt (get s "date");
  st ← newDate rt sv;
  e ← get item "end";
  edt ← get e "dateTime";
  ev ← orElse edt (get e "date");
  en ← newDate rt ev;
  d ← get item "description";
  u ← get item "updated";
  ts ← parseValue rt u;
  Ok {| id := i; title := t; startTime := st; endTime := en;
        description := d; sourceCalendar := "google"; timestamp := ts |}.

Definition apple_item (item : value) : result CalendarEvent :=
  i ← get item "uid";
  t ← get item "summary";
  sv ← get item "dtstart";
  st ← newDate rt sv;
  ev ← get item "dtend";
  en ← newDate rt ev;
  d ← get item "description";
  u ← get item "lastModified";
  ts ← parseValue rt u;
  Ok {| id := i; title := t; startTime := st; endTime := en;
        description := d; sourceCalendar := "apple"; timestamp := ts |}.

Definition outlook_item (item : value) : result CalendarEvent :=
  i ← get item "id";
  t ← get item "subject";
  s ← get item "start";
  sv ← get s "dateTime";
  st ← newDate rt sv;
  e ← get item "end";
  ev ← get e "dateTime";
  en ← newDate rt ev;
  d ← get item "bodyPreview";
  u ← get item "lastModifiedDateTime";
  ts ← parseValue rt u;
  Ok {| id := i; title := t; startTime := st; endTime := en;
        description := d; sourceCalendar := "outlook"; timestamp := ts |}.

(** [items.map(f)]: only an array has [map]; calling it on anything
    else is a [TypeError]. *)
Definition mapItems (f : value -> result CalendarEvent) (items : value)
  : result (list CalendarEvent) :=
  match items with
  | VArr xs => mapM f xs
  | _ => Throw TypeError
  end.

Definition normalizers (p : Provider)
  : option (value -> result (list CalendarEvent)) :=
  match p with
  | google => Some (mapItems google_item)
  | apple => Some (mapItems apple_item)
  | outlook => Some (mapItems outlook_item)
  | custom => None
  end.

Definition normalizeProviderEvents (config : CalendarSyncConfig) (data : value)
  : result (list CalendarEvent) :=
  match normalizers (provider config) with
  | Some normalizer =>
      a ← get data "items";
      items ← orElse a (b ← get data "value"; orElse b (Ok data));
      normalizer items
  | None => Ok []
  end.

(** ** Formatting for a provider *)

Definition formatters (p : Provider) : option (CalendarEvent -> result value) :=
  match p with
  | google => Some (fun e =>
      s ← isoString rt (startTime e);
      n ← isoString rt (endTime e);
      Ok (VObj [("summary", title e); ("description", description e);
                ("start", VObj [("dateTime", s)]);
                ("end", VObj [("dateTime", n)])]))
  | apple => Some (fun e =>
      s ← isoString rt (startTime e);
      n ← isoString rt (endTime e);
      Ok (VObj [("summary", title e); ("description", description e);
                ("dtstart", s); ("dtend", n)]))
  | outlook => Some (fun e =>
      s ← isoString rt (startTime e);
      n ← isoString rt (endTime e);
      Ok (VObj [("subject", title e);
                ("body", VObj [("content", description e);
                               ("contentType", VStr "text")]);
                ("start", VObj [("dateTime", s); ("timeZone", VStr "UTC")]);
                ("end", VObj [("dateTime", n); ("timeZone", VStr "UTC")])]))
  | custom => None
  end.

Definition formatEventForProvider (config : CalendarSyncConfig)
    (event : CalendarEvent) : result Formatted :=
  match formatters (provider config) with
  | Some formatter => v ← formatter event; Ok (Payload v)
  | None => Ok (Same event)
  end.
End Adapters.

(** ** Conflict resolution *)

(** Events are objects: [resolveConflict] receives two references and hands
    one back. The store maps a reference to the object it denotes; a
    method is a function of the store that answers a value and the store it
    leaves, or nothing when it dereferences a reference the store does not
    hold (which typed callers never pass). *)
Definition ref := positive.
Definition Store := gmap ref CalendarEvent.
Definition St (A : Type) := Store -> option (A * Store).

Definition st_ret {A} (a : A) : St A := fun σ => Some (a, σ).
Definition st_bind {A B} (m : St A) (k : A -> St B) : St B := fun σ =>
  match m σ with
  | Some (a, σ') => k a σ'
  | None => None
  end.
Definition deref (r : ref) : St CalendarEvent := fun σ =>
  match σ !! r with
  | Some e => Some (e, σ)
  | None => None
  end.

Notation "'do' x <~ m 'in' k" := (st_bind m (fun x => k))
  (at level 10, x name, m at level 100, k at level 200).

Definition resolveConflict (config : CalendarSyncConfig)
    (localEvent remoteEvent : ref) : St ref :=
  if String.eqb (conflictResolution config) "source" then
    do r <~ deref remoteEvent in
    st_ret (if negb (String.eqb (sourceCalendar r) "native")
            then remoteEvent else localEvent)
  else if String.eqb (conflictResolution config) "local" then
    st_ret localEvent
  else
    do l <~ deref localEvent in
    do r <~ deref remoteEvent in
    st_ret (if gt (timestamp l) (timestamp r) then localEvent else remoteEvent).

(** ** The world outside the service *)

(** What the server sends back to one request: a status and a body, or
    nothing (a network failure). *)
Inductive Response :=
| Status (code : Z) (data : value)
| NoResponse.

Definition TimerId := positive.

(** What an active interval timer runs: the polling closure of
    [startPolling], or code of somebody else. *)
Inductive Callback := Poll | Foreign.

Inductive Effect :=
| HttpGet (endpoint token : string)
| ConsoleWarn (msg : string)
| ConsoleError (msg : string)
| SetInterval (h : TimerId) (ms : Z)
| ClearInterval (h : TimerId).

Record World := {
  requests : nat;                    (* requests sent so far *)
  trace : list Effect;               (* effects so far, latest first *)
  timers : gmap TimerId Callback;    (* the active interval timers *)
  nextTimer : TimerId                (* the handle setInterval gives next *)
}.

Definition emit (e : Effect) (w : World) : World :=
  {| requests := requests w; trace := e :: trace w;
     timers := timers w; nextTimer := nextTimer w |}.

(** [setInterval]: a handle never given before. *)
Definition setInterval (cb : Callback) (ms : Z) (w : World) : TimerId * World :=
  let h := nextTimer w in
  (h, {| requests := requests w; trace := SetInterval h ms :: trace w;
         timers := <[h := cb]> (timers w); nextTimer := (h + 1)%positive |}).

Definition clearInterval (h : TimerId) (w : World) : World :=
  {| requests := requests w; trace := ClearInterval h :: trace w;
     timers := delete h (timers w); nextTimer := nextTimer w |}.

Record Service := {
  config : CalendarSyncConfig;
  syncInterval : option TimerId
}.

(** [new CalendarSyncService(config)] *)
Definition new (c : CalendarSyncConfig) : Service :=
  {| config := c; syncInterval := None |}.

(** How axios settles a request: it resolves with the body on a 2xx
    status and rejects with an axios error otherwise. *)
Definition settle (r : Response) : result value :=
  match r with
  | Status code data =>
      if (200 <=? code) && (code <? 300) then Ok data
      else Throw (AxiosError (Some code))
  | NoResponse => Throw (AxiosError None)
  end.

Section Sync.
Variable rt : Runtime.
(** The answer of the remote end to the [n]-th request (from 0). *)
Variable server : nat -> Response.

(** [axios.get]: one more request; the promise settles as [settle] says. *)
Definition axios_get (endpoint token : string) (w : World)
  : result value * World :=
  (settle (server (requests w)),
   {| requests := S (requests w);
      trace := HttpGet endpoint token :: trace w;
      timers := timers w; nextTimer := nextTimer w |}).

(** [axios.isAxiosError(error) && error.response?.status === 401] *)
Definition unauthorized (error : JsError) : bool :=
  match error with
  | AxiosError (Some code) => code =? 401
  | _ => false
  end.

(** A placeholder in the source: it warns and leaves the configuration
    as it is. *)
Definition refreshAccessToken (w : World) : World :=
  emit (ConsoleWarn "Access token expired, attempting refresh") w.

(** The method calls itself after a refresh. [fuel] bounds the calls the
    model follows; [None] is a run that needs more. *)
Fixpoint fetchRemoteEvents (fuel : nat) (c : CalendarSyncConfig) (w : World)
  : option (result (list CalendarEvent) * World) :=
  match fuel with
  | O => None
  | S fuel' =>
      let endpoint := getProviderEndpoint c in
      let '(response, w1) := axios_get endpoint (accessToken c) w in
      match data ← response; normalizeProviderEvents rt c data with
      | Ok events => Some (Ok events, w1)
      | Throw error =>
          if unauthorized error
          then fetchRemoteEvents fuel' c (refreshAccessToken w1)
          else Some (Throw error, w1)
      end
  end.

Definition startPolling (intervalMs : Z) (s : Service) (w : World)
  : Service * World :=
  let w1 := match syncInterval s with
            | Some h => clearInterval h w
            | None => w
            end in
  let '(h, w2) := setInterval Poll intervalMs w1 in
  ({| config := config s; syncInterval := Some h |}, w2).

Definition stopSync (s : Service) (w : World) : Service * World :=
  match syncInterval s with
  | Some h => ({| config := config s; syncInterval := None |}, clearInterval h w)
  | None => (s, w)
  end.

Definition initializeSync (fuel : nat) (s : Service) (w : World)
  : option (result (list CalendarEvent) * Service * World) :=
  match fetchRemoteEvents fuel (config s) w with
  | Some (Ok remoteEvents, w1) =>
      let '(s', w2) := startPolling 30000 s w1 in
      Some (Ok remoteEvents, s', w2)
  | Some (Throw error, w1) =>
      Some (Throw error, s,
            emit (ConsoleError "Calendar sync initialization failed:") w1)
  | None => None
  end.

(** One run of the closure [startPolling] hands to [setInterval]. *)
Definition poll (fuel : nat) (s : Service) (w : World) : option World :=
  match fetchRemoteEvents fuel (config s) w with
  | Some (Ok _, w1) => Some w1
  | Some (Throw _, w1) => Some (emit (ConsoleError "Polling sync failed:") w1)
  | None => None
  end.

(** What can happen to a service in a world, one event at a time. The
    [await] of [initializeSync] lets other events in between its fetch
    and its [startPolling]: [step_fetched] is the first half alone,
    [step_start] the second. *)
Inductive step : Service * World -> Service * World -> Prop :=
| step_initialize fuel s w r s' w' :
    initializeSync fuel s w = Some (r, s', w') -> step (s, w) (s', w')
| step_fetched fuel s w r w' :
    fetchRemoteEvents fuel (config s) w = Some (r, w') -> step (s, w) (s, w')
| step_start ms s w :
    step (s, w) (startPolling ms s w)
| step_stop s w :
    step (s, w) (stopSync s w)
| step_tick fuel h s w w' :
    timers w !! h = Some Poll -> poll fuel s w = Some w' -> step (s, w) (s, w').
End Sync.

End CalendarSync.

(* ===================================================================== *)
(** * RealtimeSyncService ([src/services/realtimeSync.ts])                *)
(* ===================================================================== *)

Module RealtimeSync.
Import Js.

(** Modelled from the spec: [SyncOperation] ([src/types]), a pending
    create, update or delete with the event it affects (its id, for a
    delete) and the sequence number the client gave it. *)
Inductive SyncOperation :=
| OpCreate (event : CalendarSync.CalendarEvent) (seq : nat)
| OpUpdate (event : CalendarSync.CalendarEvent) (seq : nat)
| OpDelete (eventId : string) (seq : nat).

(** What the service emits on its socket. *)
Inductive Packet :=
| Operations (operations : list SyncOperation)
| CursorUpdate (x y : Z) (username : string)
| JoinCalendar (calendarId username : string)
| LeaveCalendar (calendarId : string).

(** The socket.io client socket as the service sees it: where it was
    opened, with which token, the events it listens to, and the packets it
    was asked to emit, oldest first. *)
Record Socket := {
  uri : string;
  auth : string;
  listeners : list string;
  emitted : list Packet
}.

Record Service := {
  socket : option Socket;
  token : string;
  url : string
}.

(** [new RealtimeSyncService(url, token)] *)
Definition new (u t : string) : Service :=
  {| socket := None; token := t; url := u |}.

Definition io (u t : string) : Socket :=
  {| uri := u; auth := t; listeners := []; emitted := [] |}.

Definition on (event : string) (k : Socket) : Socket :=
  {| uri := uri k; auth := auth k; listeners := listeners k ++ [event];
     emitted := emitted k |}.

Definition emit (p : Packet) (k : Socket) : Socket :=
  {| uri := uri k; auth := auth k; listeners := listeners k;
     emitted := emitted k ++ [p] |}.

Definition withSocket (s : Service) (k : option Socket) : Service :=
  {| socket := k; token := token s; url := url s |}.

Definition connect (s : Service) : Service :=
  withSocket s
    (Some (on "userLeft" (on "userJoined" (on "cursorUpdate"
            (on "operations" (io (url s) (token s))))))).

Definition disconnect (s : Service) : Service :=
  match socket s with
  | Some _ => withSocket s None
  | None => s
  end.

Definition sendOperations (operations : list SyncOperation) (s : Service)
  : Service :=
  match socket s with
  | Some k => withSocket s (Some (emit (Operations operations) k))
  | None => s
  end.

Definition sendCursorUpdate (x y : Z) (username : string) (s : Service)
  : Service :=
  match socket s with
  | Some k => withSocket s (Some (emit (CursorUpdate x y username) k))
  | None => s
  end.

Definition joinCalendar (calendarId username : string) (s : Service) : Service :=
  match socket s with
  | Some k => withSocket s (Some (emit (JoinCalendar calendarId username) k))
  | None => s
  end.

Definition leaveCalendar (calendarId : string) (s : Service) : Service :=
  match socket s with
  | Some k => withSocket s (Some (emit (LeaveCalendar calendarId) k))
  | None => s
  end.


End RealtimeSync.

(* ===================================================================== *)
(** * Sample data                                                         *)
(* ===================================================================== *)

Module Samples.
Import Js CalendarSync.

Definition configFor (p : Provider) (strategy : string) : CalendarSyncConfig :=
  {| provider := p; apiEndpoint := "https://calendar.example/api";
     accessToken := "access"; refreshToken := "refresh";
     conflictResolution := strategy |}.

Definition event (name : string) (source : string) (stamp : number)
  : CalendarEvent :=
  {| id := VStr "e1"; title := VStr name;
     startTime := Num 1704103200000; endTime := Num 1704106800000;
     description := VUndefined; sourceCalendar := source; timestamp := stamp |}.

Definition localRef : ref := 1%positive.
Definition remoteRef : ref := 2%positive.

(** A local and a remote version of event [e1]. *)
Definition versions (localStamp remoteStamp : number) : Store :=
  {[ localRef := event "edited here" "native" localStamp;
     remoteRef := event "edited there" "google" remoteStamp ]}.

(** Provider payload items. *)
Definition googleItem (name : string) (starts ends : string) : value :=
  VObj [("id", VStr name); ("summary", VStr name);
        ("start", VObj [("dateTime", VStr starts)]);
        ("end", VObj [("dateTime", VStr ends)]);
        ("description", VStr "notes");
        ("updated", VStr "2024-01-01T08:00:00.000Z")].

(** An item with neither [start] nor [end]. *)
Definition googleItemWithoutTimes : value :=
  VObj [("id", VStr "bad"); ("summary", VStr "no times")].

(** An item with nothing but its uid: no title, no times. *)
Definition appleItemBare : value := VObj [("uid", VStr "bare")].

Definition appleItem : value :=
  VObj [("uid", VStr "a1"); ("summary", VStr "Dentist");
        ("dtstart", VStr "2024-03-05T09:00:00.000Z");
        ("dtend", VStr "2024-03-05T09:30:00.000Z");
        ("description", VStr "bring the forms");
        ("lastModified", VStr "2024-03-01T12:00:00.000Z")].

Definition outlookItem : value :=
  VObj [("id", VStr "o1"); ("subject", VStr "Review");
        ("start", VObj [("dateTime", VStr "2024-01-01T10:00:00.000Z")]);
        ("end", VObj [("dateTime", VStr "2024-01-01T11:00:00.000Z")]);
        ("bodyPreview", VStr "notes");
        ("lastModifiedDateTime", VStr "2024-01-01T08:00:00.000Z")].

(** An event as a custom endpoint would send it, already in canonical
    shape. *)
Definition canonicalItem : value :=
  VObj [("id", VStr "c1"); ("title", VStr "Standup");
        ("startTime", VStr "2024-01-01T10:00:00.000Z");
        ("endTime", VStr "2024-01-01T10:15:00.000Z");
        ("sourceCalendar", VStr "native");
        ("timestamp", VNum (Num 1704096000000))].

(** A world with no request sent and one timer of somebody else. *)
Definition quietWorld : World :=
  {| requests := 0; trace := [];
     timers := {[ 1%positive := Foreign ]}; nextTimer := 2%positive |}.


(** A service whose polling was started twice in a row. *)
Definition startedTwice : Service * World :=
  let once := startPolling 1000 (new (configFor google "timestamp")) quietWorld in
  startPolling 500 once.1 once.2.


(** A realtime service nobody has connected yet. *)
Definition offline : RealtimeSync.Service :=
  RealtimeSync.new "wss://sync.example" "token".

End Samples.

(* ===================================================================== *)
(** * Notions the statements use                                          *)
(* ===================================================================== *)

Module Notions.
Import Js CalendarSync.

(** The reference [resolveConflict] picks when both are in the store. *)
Definition winner (c : CalendarSyncConfig) (l r : ref) (el er : CalendarEvent)
  : ref :=
  if String.eqb (conflictResolution c) "source" then
    if String.eqb (sourceCalendar er) "native" then l else r
  else if String.eqb (conflictResolution c) "local" then l
  else if gt (timestamp el) (timestamp er) then l else r.

(** [v.k1.k2...] *)
Fixpoint path (v : value) (ks : list string) : result value :=
  match ks with
  | [] => Ok v
  | k :: rest => x ← get v k; path x rest
  end.

(** [v.k] where it cannot throw, [undefined] where it would. *)
Definition peek (v : value) (k : string) : value :=
  match get v k with
  | Ok x => x
  | Throw _ => VUndefined
  end.

Definition nullish (v : value) : bool :=
  match v with
  | VUndefined | VNull => true
  | _ => false
  end.

(** The value the normalizer of [p] hands to [new Date] for the start and
    for the end of an item. *)
Definition startField (p : Provider) (item : value) : value :=
  match p with
  | google =>
      let s := peek item "start" in
      if truthy (peek s "dateTime") then peek s "dateTime" else peek s "date"
  | apple => peek item "dtstart"
  | outlook => peek (peek item "start") "dateTime"
  | custom => VUndefined
  end.

Definition endField (p : Provider) (item : value) : value :=
  match p with
  | google =>
      let s := peek item "end" in
      if truthy (peek s "dateTime") then peek s "dateTime" else peek s "date"
  | apple => peek item "dtend"
  | outlook => peek (peek item "end") "dateTime"
  | custom => VUndefined
  end.

(** The value the normalizer of [p] hands to [Date.parse] for the
    timestamp of an item. *)
Definition modifiedField (p : Provider) (item : value) : value :=
  match p with
  | google => peek item "updated"
  | apple => peek item "lastModified"
  | outlook => peek item "lastModifiedDateTime"
  | custom => VUndefined
  end.

(** The item can be read by the normalizer of [p]: every object the
    normalizer reads a property of is there (the item itself; for google
    and outlook also its [start] and [end]), and the three values it
    makes dates of can be converted to primitives. *)
Definition readable (p : Provider) (item : value) : bool :=
  match p with
  | google | outlook =>
      negb (nullish item) && negb (nullish (peek item "start"))
      && negb (nullish (peek item "end"))
  | apple => negb (nullish item)
  | custom => true
  end
  && convertible (startField p item) && convertible (endField p item)
  && convertible (modifiedField p item).

(** Where the payload of provider [p] keeps what the canonical event calls
    title, description, start and end. *)
Definition titlePath (p : Provider) : list string :=
  match p with
  | outlook => ["subject"]
  | _ => ["summary"]
  end.

Definition descriptionPath (p : Provider) : list string :=
  match p with
  | outlook => ["bodyPreview"]
  | _ => ["description"]
  end.

Definition startPath (p : Provider) : list string :=
  match p with
  | apple => ["dtstart"]
  | _ => ["start"; "dateTime"]
  end.

Definition endPath (p : Provider) : list string :=
  match p with
  | apple => ["dtend"]
  | _ => ["end"; "dateTime"]
  end.

(** [data.items || data.value || data]: the batch a response carries. *)
Definition itemsOf (data : value) : result value :=
  a ← get data "items";
  orElse a (b ← get data "value"; orElse b (Ok data)).

(** The payload [formatEventForProvider] builds from the one event
    [normalizeProviderEvents] reads from the one-item batch [[x]]. *)
Definition denormalizeNormalized (rt : Runtime) (c : CalendarSyncConfig)
    (x : value) : option value :=
  match normalizeProviderEvents rt c (VArr [x]) with
  | Ok [e] =>
      match formatEventForProvider rt c e with
      | Ok (Payload y) => Some y
      | _ => None
      end
  | _ => None
  end.

(** What a normalizer callback [f] of provider [p] does with one item. *)
Definition reads (rt : Runtime) (p : Provider)
    (f : value -> result CalendarEvent) (item : value) : Prop :=
  if readable p item then
    exists e, f item = Ok e
              /\ newDate rt (startField p item) = Ok (startTime e)
              /\ newDate rt (endField p item) = Ok (endTime e)
              /\ Ok (title e) = path item (titlePath p)
              /\ Ok (description e) = path item (descriptionPath p)
  else f item = Throw TypeError.

(** How many requests, and how many token refreshes, a world has seen. *)
Definition isGet (e : Effect) : bool :=
  match e with
  | HttpGet _ _ => true
  | _ => false
  end.

Definition isRefresh (e : Effect) : bool :=
  match e with
  | ConsoleWarn _ => true
  | _ => false
  end.


(** What one fetch makes of the answer [r] of the server. *)
Definition outcome (rt : Runtime) (c : CalendarSyncConfig) (r : Response)
  : result (list CalendarEvent) :=
  data ← settle r; normalizeProviderEvents rt c data.

(** No polling timer is active. *)
Definition noPoll (w : World) : Prop :=
  forall h, timers w !! h <> Some Poll.

(** The polling timers that are active are the one the service holds the
    handle of, if it holds one, and no other. *)
Definition ownsItsTimer (s : Service) (w : World) : Prop :=
  forall h, timers w !! h = Some Poll <-> syncInterval s = Some h.

End Notions.

(* ===================================================================== *)
(** * Pushing an event ([pushEvent] of [calendarSync.ts])                 *)
(* ===================================================================== *)

Module Push.
Import Js CalendarSync.

(** What [pushEvent] does to the outside: a POST with its endpoint, its
    bearer token and its body, or a line on the error console. *)
Inductive PushEffect :=
| HttpPost (endpoint token : string) (payload : Formatted)
| LogError (msg : string).

Record PushWorld := {
  sent : nat;                 (* POSTs sent so far *)
  log : list PushEffect       (* effects so far, latest first *)
}.

Section Pushing.
Variable rt : Runtime.
(** The answer of the remote end to the [n]-th POST (from 0). *)
Variable server : nat -> Response.

(** [axios.post]: one more request; the promise settles as [settle] says. *)
Definition axios_post (endpoint token : string) (payload : Formatted)
    (w : PushWorld) : result value * PushWorld :=
  (settle (server (sent w)),
   {| sent := S (sent w); log := HttpPost endpoint token payload :: log w |}).

(** The payload is built before the [try]: an exception of
    [formatEventForProvider] leaves the method before any request, and
    unlogged. *)
Definition pushEvent (s : Service) (event : CalendarEvent) (w : PushWorld)
  : result unit * PushWorld :=
  let endpoint := getProviderEndpoint (config s) in
  match formatEventForProvider rt (config s) event with
  | Throw e => (Throw e, w)
  | Ok payload =>
      match axios_post endpoint (accessToken (config s)) payload w with
      | (Ok _, w1) => (Ok tt, w1)
      | (Throw error, w1) =>
          (Throw error,
           {| sent := sent w1;
              log := LogError "Failed to push event to remote calendar:"
                     :: log w1 |})
      end
  end.
End Pushing.

End Push.

(* ===================================================================== *)
(** * Sequences of calls on the realtime service                          *)
(* ===================================================================== *)

Module RealtimeCalls.
Import Js RealtimeSync.

(** One call of a public method of [RealtimeSyncService]. *)
Inductive Call :=
| Connect
| Disconnect
| SendOperations (operations : list SyncOperation)
| SendCursorUpdate (x y : Z) (username : string)
| JoinCalendar (calendarId username : string)
| LeaveCalendar (calendarId : string).

Definition call (c : Call) (s : Service) : Service :=
  match c with
  | Connect => connect s
  | Disconnect => disconnect s
  | SendOperations ops => sendOperations ops s
  | SendCursorUpdate x y u => sendCursorUpdate x y u s
  | JoinCalendar i u => joinCalendar i u s
  | LeaveCalendar i => leaveCalendar i s
  end.

(** The calls made one after the other, the first of the list first. *)
Definition run (calls : list Call) (s : Service) : Service :=
  fold_left (fun s c => call c s) calls s.

(** The packet a sending call asks for. *)
Definition packetOf (c : Call) : option Packet :=
  match c with
  | Connect | Disconnect => None
  | SendOperations ops => Some (Operations ops)
  | SendCursorUpdate x y u => Some (CursorUpdate x y u)
  | JoinCalendar i u => Some (RealtimeSync.JoinCalendar i u)
  | LeaveCalendar i => Some (RealtimeSync.LeaveCalendar i)
  end.

(** The channel as an observer of the calls sees it: absent, or open with
    the packets handed to it so far. A connect opens an empty one, a
    disconnect removes it, a send is added to an open one and lost
    without one. *)
Fixpoint channel (calls : list Call) (now : option (list Packet))
  : option (list Packet) :=
  match calls with
  | [] => now
  | Connect :: rest => channel rest (Some [])
  | Disconnect :: rest => channel rest None
  | c :: rest =>
      channel rest
        (match now, packetOf c with
         | Some ps, Some p => Some (ps ++ [p])%list
         | _, _ => now
         end)
  end.

(** The socket, when there is one, is the one [connect] opens for this
    service: its url, its token, the four listeners, in this order. *)
Definition socketOf (u t : string) (k : Socket) : Prop :=
  uri k = u /\ auth k = t
  /\ listeners k = ["operations"; "cursorUpdate"; "userJoined"; "userLeft"].

End RealtimeCalls.

(* ===================================================================== *)
(** * Further notions                                                     *)
(* ===================================================================== *)

Module MoreNotions.
Import Js CalendarSync.

(** The name a normalizer writes into [sourceCalendar]. *)
Definition providerTag (p : Provider) : string :=
  match p with
  | google => "google"
  | apple => "apple"
  | outlook => "outlook"
  | custom => "custom"
  end.

(** The effects a fetch can add to the trace: a GET to the endpoint of the
    configuration with its access token, or the warning of a refresh. *)
Definition fetchEffect (c : CalendarSyncConfig) (e : Effect) : Prop :=
  e = HttpGet (getProviderEndpoint c) (accessToken c)
  \/ e = ConsoleWarn "Access token expired, attempting refresh".

(** Every active timer has a handle [setInterval] has already given. *)
Definition wellFormed (w : World) : Prop :=
  forall h, is_Some (timers w !! h) -> (h < nextTimer w)%positive.

(** The strategy string selects the [default] branch of the [switch] of
    [resolveConflict], as ["timestamp"] does. *)
Definition byTimestamp (c : CalendarSyncConfig) : Prop :=
  conflictResolution c <> "source" /\ conflictResolution c <> "local".

(** The handles a service has been given lie between the next handle of
    the world it started in and the next handle now, and nothing below
    the former has changed. *)
Definition since (w0 : World) (x : Service * World) : Prop :=
  (nextTimer w0 <= nextTimer x.2)%positive
  /\ (forall h, (h < nextTimer w0)%positive ->
        timers x.2 !! h = timers w0 !! h)
  /\ (forall h, is_Some (timers x.2 !! h) -> (h < nextTimer x.2)%positive)
  /\ (forall h, syncInterval x.1 = Some h ->
        (nextTimer w0 <= h < nextTimer x.2)%positive).

End MoreNotions.

(* ===================================================================== *)
(** * Further sample data                                                 *)
(* ===================================================================== *)

Module MoreSamples.
Import Js CalendarSync Samples.

(** The world after one request to the google endpoint. *)
Definition fetchedOnce : World :=
  snd (axios_get (fun _ => Status 200 (VArr []))
         (getProviderEndpoint (configFor google "timestamp")) "access"
         quietWorld).

(** A fresh service after a successful [initializeSync]. *)
Definition initialized : Service * World :=
  startPolling 30000 (new (configFor google "timestamp")) fetchedOnce.

(** Nothing pushed yet. *)
Definition nothingPushed : Push.PushWorld :=
  {| Push.sent := 0; Push.log := [] |}.

(** An apple item whose start is an object with a [toString] of its own,
    which cannot be converted to a primitive. *)
Definition appleItemOddStart : value :=
  VObj [("uid", VStr "odd"); ("summary", VStr "Odd");
        ("dtstart", VObj [("toString", VNull)]);
        ("dtend", VStr "2024-03-05T09:30:00.000Z")].

(** An event whose dates could not be read. *)
Definition undatedEvent : CalendarEvent :=
  {| id := VStr "bare"; title := VUndefined; startTime := NaN;
     endTime := NaN; description := VUndefined;
     sourceCalendar := "apple"; timestamp := NaN |}.

End MoreSamples.

(* ===================================================================== *)
(** * The Sync Queue in front of the realtime channel                     *)
(* ===================================================================== *)

Module SyncQueue.
Import RealtimeSync.

(** Modelled from the spec: the Sync Queue (sections 3, 4.4 and 4.5) with
    the realtime service it feeds. The repository keeps the queue in its
    store, which is not among the sources. The queue is the ordered
    buffer of the local operations not yet confirmed transmitted. *)
Record Engine := {
  queue : list SyncOperation;
  service : Service
}.



(** Modelled from the spec: an acknowledgment of the first [n] operations
    removes them from the queue (the store's code for it is not among the
    sources). *)
Definition acknowledge (n : nat) (e : Engine) : Engine :=
  {| queue := drop n (queue e); service := service e |}.



End SyncQueue.

(* ===================================================================== *)
(** * Properties of conflict resolution                                   *)
(* ===================================================================== *)

Module ConflictProps.
Import Js CalendarSync Samples Notions.

Lemma resolveConflict_winner c σ l r el er :
  σ !! l = Some el -> σ !! r = Some er ->
  resolveConflict c l r σ = Some (winner c l r el er, σ).
Proof.
  intros Hl Hr. unfold resolveConflict, winner, st_bind, deref, st_ret.
  destruct (String.eqb (conflictResolution c) "source").
  - rewrite Hr. by destruct (String.eqb (sourceCalendar er) "native").
  - destruct (String.eqb (conflictResolution c) "local"); [done|].
    by rewrite Hl, Hr.
Qed.

Lemma winner_is_input c l r el er :
  winner c l r el er = l \/ winner c l r el er = r.
Proof.
  unfold winner.
  repeat match goal with |- context [if ?b then _ else _] => destruct b end;
    auto.
Qed.

Lemma gt_irrefl n : gt n n = false.
Proof. destruct n as [|z]; [done|]. simpl. lia. Qed.

Lemma winner_timestamp c l r el er :
  conflictResolution c = "timestamp" ->
  winner c l r el er = if gt (timestamp el) (timestamp er) then l else r.
Proof. intros E. unfold winner. by rewrite E. Qed.

(** C1, as the specification states it, fails: with equal timestamps the
    "timestamp" strategy hands back the remote version, not the local one.
    Here both versions of [e1] carry timestamp 100. *)
Lemma timestamp_tie_keeps_remote :
  let σ := versions (Num 100) (Num 100) in
  resolveConflict (configFor google "timestamp") localRef remoteRef σ
    = Some (remoteRef, σ)
  /\ remoteRef <> localRef
  /\ (id <$> σ !! localRef) = (id <$> σ !! remoteRef)
  /\ (timestamp <$> σ !! localRef) = (timestamp <$> σ !! remoteRef).
Proof. repeat split; done. Qed.

(** C1, amended: under the "timestamp" strategy [resolveConflict] hands
    back the local version exactly when its timestamp is strictly greater;
    when the remote timestamp is greater, and also when the two are equal,
    it hands back the remote version. The store is left as it was. *)
Theorem timestamp_strategy c (σ : Store) l r el er :
  conflictResolution c = "timestamp" ->
  σ !! l = Some el -> σ !! r = Some er ->
  (forall a b, timestamp el = Num a -> timestamp er = Num b -> b < a ->
     resolveConflict c l r σ = Some (l, σ))
  /\ (forall a b, timestamp el = Num a -> timestamp er = Num b -> a < b ->
     resolveConflict c l r σ = Some (r, σ))
  /\ (timestamp el = timestamp er -> resolveConflict c l r σ = Some (r, σ)).
Proof.
  intros Hc Hl Hr.
  rewrite (resolveConflict_winner c σ l r el er Hl Hr), (winner_timestamp _ _ _ _ _ Hc).
  repeat split.
  - intros a b -> -> Hab. simpl. by rewrite (proj2 (Z.ltb_lt b a) Hab).
  - intros a b -> -> Hab. simpl. by rewrite (proj2 (Z.ltb_ge b a)) by lia.
  - intros ->. by rewrite gt_irrefl.
Qed.

Lemma timestamp_strategy_witness :
  resolveConflict (configFor google "timestamp") localRef remoteRef
    (versions (Num 200) (Num 100))
  = Some (localRef, versions (Num 200) (Num 100)).
Proof.
  refine (proj1 (timestamp_strategy (configFor google "timestamp")
                   (versions (Num 200) (Num 100)) localRef remoteRef
                   (event "edited here" "native" (Num 200))
                   (event "edited there" "google" (Num 100))
                   eq_refl eq_refl eq_refl) 200 100 eq_refl eq_refl _).
  lia.
Defined.

(** C5: [resolveConflict] is idempotent under every strategy: resolving
    the winner of [a] and [b] against [b] again gives that same winner. *)
Theorem resolveConflict_idempotent c (σ : Store) a b ea eb :
  σ !! a = Some ea -> σ !! b = Some eb ->
  exists w, resolveConflict c a b σ = Some (w, σ)
            /\ resolveConflict c w b σ = Some (w, σ).
Proof.
  intros Ha Hb. exists (winner c a b ea eb).
  split; [by apply resolveConflict_winner|].
  destruct (winner_is_input c a b ea eb) as [E|E].
  - rewrite E at 1. rewrite (resolveConflict_winner c σ a b ea eb Ha Hb).
    by rewrite E.
  - rewrite E. rewrite (resolveConflict_winner c σ b b eb eb Hb Hb).
    unfold winner. rewrite gt_irrefl.
    repeat match goal with |- context [if ?x then _ else _] => destruct x end;
      done.
Qed.

Lemma resolveConflict_idempotent_witness :
  exists w,
    resolveConflict (configFor google "source") localRef remoteRef
      (versions (Num 200) (Num 100)) = Some (w, versions (Num 200) (Num 100))
    /\ resolveConflict (configFor google "source") w remoteRef
      (versions (Num 200) (Num 100)) = Some (w, versions (Num 200) (Num 100)).
Proof.
  exact (resolveConflict_idempotent (configFor google "source")
           (versions (Num 200) (Num 100)) localRef remoteRef
           (event "edited here" "native" (Num 200))
           (event "edited there" "google" (Num 100)) eq_refl eq_refl).
Defined.

(** C6: [resolveConflict] is pure and total: whatever the strategy string,
    on two events of the store it returns, its result is one of the two
    references it was given, and the store (so both events) is unchanged. *)
Theorem resolveConflict_pure_total c (σ : Store) l r el er :
  σ !! l = Some el -> σ !! r = Some er ->
  exists w, resolveConflict c l r σ = Some (w, σ) /\ (w = l \/ w = r).
Proof.
  intros Hl Hr. exists (winner c l r el er).
  split; [by apply resolveConflict_winner | apply winner_is_input].
Qed.

Lemma resolveConflict_pure_total_witness :
  exists w,
    resolveConflict (configFor google "newest-first") localRef remoteRef
      (versions (Num 100) (Num 200)) = Some (w, versions (Num 100) (Num 200))
    /\ (w = localRef \/ w = remoteRef).
Proof.
  exact (resolveConflict_pure_total (configFor google "newest-first")
           (versions (Num 100) (Num 200)) localRef remoteRef
           (event "edited here" "native" (Num 100))
           (event "edited there" "google" (Num 200)) eq_refl eq_refl).
Defined.

End ConflictProps.

(* ===================================================================== *)
(** * Properties of the provider adapters                                 *)
(* ===================================================================== *)

Module AdapterProps.
Import Js CalendarSync Samples Notions.

Ltac run := unfold mbind, result_bind, orElse in *; simpl in *.

(** [mapM] hands back one result per element, in order, or throws. *)
Lemma mapM_Ok_lookup {A B} (f : A -> result B) xs ys :
  mapM f xs = Ok ys ->
  length ys = length xs
  /\ forall (i : nat) x, xs !! i = Some x ->
       exists y, ys !! i = Some y /\ f x = Ok y.
Proof.
  revert ys. induction xs as [|x xs IH]; intros ys H; simpl in H.
  - injection H as <-. split; [done|]. intros i x Hx. by destruct i.
  - run. destruct (f x) as [y|e] eqn:Ef; [|done].
    destruct (mapM f xs) as [ys'|e] eqn:Em; [|done].
    injection H as <-. destruct (IH ys' eq_refl) as [Hlen Hall].
    split; [simpl; by rewrite Hlen|].
    intros [|i] x' Hx'; simpl in *.
    + injection Hx' as <-. by exists y.
    + by apply Hall.
Qed.

Lemma mapM_all_Ok {A B} (f : A -> result B) (ok : A -> bool) xs :
  (forall x, ok x = true -> exists y, f x = Ok y) ->
  forallb ok xs = true -> exists ys, mapM f xs = Ok ys.
Proof.
  intros Hf. induction xs as [|x xs IH]; simpl; intros H.
  - by exists [].
  - apply andb_true_iff in H as [Hx Hxs].
    destruct (Hf x Hx) as [y Ey]. destruct (IH Hxs) as [ys Eys].
    exists (y :: ys). run. by rewrite Ey, Eys.
Qed.

Lemma mapM_one_Throw {A B} (f : A -> result B) (ok : A -> bool) e xs :
  (forall x, ok x = false -> f x = Throw e) ->
  (forall x err, f x = Throw err -> err = e) ->
  forallb ok xs = false -> mapM f xs = Throw e.
Proof.
  intros Hf He. induction xs as [|x xs IH]; simpl; intros H; [done|].
  run. destruct (f x) as [y|err] eqn:Ef.
  - destruct (ok x) eqn:Ex; [|by rewrite (Hf x Ex) in Ef].
    simpl in H. by rewrite (IH H).
  - by rewrite (He _ _ Ef).
Qed.

Lemma get_peek v k : nullish v = false -> get v k = Ok (peek v k).
Proof. by destruct v. Qed.

Lemma get_nullish v k : nullish v = true -> get v k = Throw TypeError.
Proof. by destruct v. Qed.

(** [new Date(v)] and [Date.parse(v)] throw exactly when [v] cannot be
    converted, and then a [TypeError]. *)
Lemma newDate_cases rt v :
  (exists n, newDate rt v = Ok n /\ convertible v = true)
  \/ (newDate rt v = Throw TypeError /\ convertible v = false).
Proof.
  destruct v as [| |b|n|s|xs|fs]; simpl; eauto;
    match goal with |- context [if ?c then _ else _] => destruct c end; eauto.
Qed.

Lemma parseValue_cases rt v :
  (exists n, parseValue rt v = Ok n /\ convertible v = true)
  \/ (parseValue rt v = Throw TypeError /\ convertible v = false).
Proof.
  destruct v as [| |b|n|s|xs|fs]; simpl; eauto;
    match goal with |- context [if ?c then _ else _] => destruct c end; eauto.
Qed.

(** One step through a callback: the next date it makes. *)
Ltac next_date :=
  let Hc := fresh "Hc" in
  match goal with
  | |- context [newDate ?rt ?v] =>
      destruct (newDate_cases rt v) as [(? & -> & Hc)|[-> Hc]]
  | |- context [parseValue ?rt ?v] =>
      destruct (parseValue_cases rt v) as [(? & -> & Hc)|[-> Hc]]
  end; rewrite ?Hc; clear Hc; simpl; rewrite ?andb_false_r; try done.

Lemma google_item_reads rt item : reads rt google (google_item rt) item.
Proof.
  unfold reads, readable, google_item, startField, endField, modifiedField.
  destruct (nullish item) eqn:Ni; simpl.
  { by rewrite (get_nullish item "id" Ni). }
  rewrite !(get_peek item) by done. run.
  destruct (nullish (peek item "start")) eqn:Ns; simpl.
  { by rewrite (get_nullish _ "dateTime" Ns). }
  rewrite !(get_peek (peek item "start")) by done. simpl.
  destruct (nullish (peek item "end")) eqn:Ne; simpl.
  { destruct (truthy (peek (peek item "start") "dateTime")); simpl;
      next_date; by rewrite (get_nullish _ "dateTime" Ne). }
  rewrite !(get_peek (peek item "end")) by done. simpl.
  destruct (truthy (peek (peek item "start") "dateTime")); simpl;
    next_date;
    destruct (truthy (peek (peek item "end") "dateTime")); simpl;
    next_date; next_date; eauto 10.
Qed.

Lemma apple_item_reads rt item : reads rt apple (apple_item rt) item.
Proof.
  unfold reads, readable, apple_item, startField, endField, modifiedField.
  destruct (nullish item) eqn:Ni; simpl.
  { by rewrite (get_nullish item "uid" Ni). }
  rewrite !(get_peek item) by done. run.
  next_date; next_date; next_date; eauto 10.
Qed.

Lemma outlook_item_reads rt item : reads rt outlook (outlook_item rt) item.
Proof.
  unfold reads, readable, outlook_item, startField, endField, modifiedField.
  destruct (nullish item) eqn:Ni; simpl.
  { by rewrite (get_nullish item "id" Ni). }
  rewrite !(get_peek item) by done. run.
  destruct (nullish (peek item "start")) eqn:Ns; simpl.
  { by rewrite (get_nullish _ "dateTime" Ns). }
  rewrite !(get_peek (peek item "start")) by done. simpl.
  next_date.
  destruct (nullish (peek item "end")) eqn:Ne; simpl.
  { by rewrite (get_nullish _ "dateTime" Ne). }
  rewrite !(get_peek (peek item "end")) by done. simpl.
  next_date; next_date; eauto 10.
Qed.

Lemma normalizers_reads rt p n :
  normalizers rt p = Some n ->
  exists f, n = mapItems f /\ forall item, reads rt p f item.
Proof.
  destruct p; simpl; intros H; try done; injection H as <-;
    eauto using google_item_reads, apple_item_reads, outlook_item_reads.
Qed.

Lemma reads_Ok rt p f :
  (forall item, reads rt p f item) ->
  forall x, readable p x = true -> exists y, f x = Ok y.
Proof.
  intros H x Hx. specialize (H x). unfold reads in H. rewrite Hx in H.
  destruct H as (e & He & _). by exists e.
Qed.

Lemma reads_Throw rt p f :
  (forall item, reads rt p f item) ->
  (forall x, readable p x = false -> f x = Throw TypeError)
  /\ (forall x err, f x = Throw err -> err = TypeError).
Proof.
  intros H. split.
  - intros x Hx. specialize (H x). unfold reads in H. by rewrite Hx in H.
  - intros x err Hx. specialize (H x). unfold reads in H.
    destruct (readable p x).
    + destruct H as (e & He & _). congruence.
    + congruence.
Qed.

(** With a known provider, [normalizeProviderEvents] is the provider's
    callback mapped over the batch of the response. *)
Lemma normalize_known rt c data items :
  provider c <> custom -> itemsOf data = Ok (VArr items) ->
  exists f, normalizeProviderEvents rt c data = mapM f items
            /\ forall item, reads rt (provider c) f item.
Proof.
  intros Hp Hi. unfold normalizeProviderEvents.
  destruct (normalizers rt (provider c)) as [n|] eqn:En.
  - destruct (normalizers_reads rt _ n En) as (f & -> & Hf).
    exists f. split; [|done].
    unfold itemsOf in Hi. run.
    destruct (get data "items") as [a|]; [|done]. simpl in *.
    destruct (truthy a).
    + by injection Hi as ->.
    + destruct (get data "value") as [b|]; [|done]. simpl in *.
      destruct (truthy b); by injection Hi as ->.
  - by destruct (provider c).
Qed.

(** C3, as the specification states it, fails: the normalizers map over
    the batch without a guard, so one item they cannot read aborts the
    whole call, and an item that only lacks fields is kept, not skipped.
    The google batch below holds two good items around one without
    [start] and [end]; the apple batch holds an item with nothing but a
    uid. *)
Lemma one_bad_item_aborts_batch :
  let good1 := googleItem "a" "2024-01-01T10:00:00Z" "2024-01-01T11:00:00Z" in
  let good2 := googleItem "b" "2024-01-02T10:00:00Z" "2024-01-02T11:00:00Z" in
  normalizeProviderEvents Ecma.runtime (configFor google "timestamp")
    (VObj [("items", VArr [good1; googleItemWithoutTimes; good2])])
  = Throw TypeError
  /\ (length <$> normalizeProviderEvents Ecma.runtime
                    (configFor google "timestamp")
                    (VObj [("items", VArr [good1; good2])])) = Ok 2%nat
  /\ (List.map title <$> normalizeProviderEvents Ecma.runtime
                            (configFor apple "timestamp")
                            (VArr [appleItemBare])) = Ok [VUndefined].
Proof. repeat split; vm_compute; reflexivity. Qed.

(** C3, amended: for each of the three providers, [normalizeProviderEvents]
    skips nothing. When every item of the batch can be read it returns
    exactly one event per item; when some item cannot be read (it is
    [null] or [undefined]; or, for google and outlook, it lacks its
    [start] or [end] object; or one of the three values it gives for the
    start, the end and the last modification cannot be converted to a
    primitive) the whole call throws a [TypeError]. *)
Theorem normalize_all_or_nothing rt c data items :
  provider c <> custom -> itemsOf data = Ok (VArr items) ->
  (forallb (readable (provider c)) items = true ->
     exists events, normalizeProviderEvents rt c data = Ok events
                    /\ length events = length items)
  /\ (forallb (readable (provider c)) items = false ->
       normalizeProviderEvents rt c data = Throw TypeError).
Proof.
  intros Hp Hi. destruct (normalize_known rt c data items Hp Hi) as (f & -> & Hf).
  split; intros Hall.
  - destruct (mapM_all_Ok f _ items (reads_Ok rt _ f Hf) Hall) as [ys Eys].
    exists ys. split; [done|]. by apply (mapM_Ok_lookup f).
  - destruct (reads_Throw rt _ f Hf) as [H1 H2].
    by apply (mapM_one_Throw f (readable (provider c))).
Qed.

Lemma normalize_all_or_nothing_witness :
  normalizeProviderEvents Ecma.runtime (configFor apple "timestamp")
    (VArr [appleItem; MoreSamples.appleItemOddStart])
  = Throw TypeError.
Proof.
  refine (proj2 (normalize_all_or_nothing Ecma.runtime
                   (configFor apple "timestamp")
                   (VArr [appleItem; MoreSamples.appleItemOddStart])
                   [appleItem; MoreSamples.appleItemOddStart]
                   _ eq_refl) eq_refl).
  discriminate.
Defined.

Example late_start_sample :
  normalizeProviderEvents Ecma.runtime (configFor google "timestamp")
    (VArr [googleItem "a" "2024-01-02T10:00:00Z" "2024-01-01T10:00:00Z"])
  = Ok [ {| id := VStr "a"; title := VStr "a";
            startTime := Num 1704189600000; endTime := Num 1704103200000;
            description := VStr "notes"; sourceCalendar := "google";
            timestamp := Num 1704096000000 |} ].
Proof. vm_compute. reflexivity. Qed.

(** C9, as the specification states it, fails: normalisation compares no
    times. The google item below ends a day before it starts, and its
    event is returned. *)
Lemma end_before_start_is_kept :
  normalizeProviderEvents Ecma.runtime (configFor google "timestamp")
    (VArr [googleItem "a" "2024-01-02T10:00:00Z" "2024-01-01T10:00:00Z"])
  = Ok [ {| id := VStr "a"; title := VStr "a";
            startTime := Num 1704189600000; endTime := Num 1704103200000;
            description := VStr "notes"; sourceCalendar := "google";
            timestamp := Num 1704096000000 |} ]
  /\ 1704103200000 < 1704189600000.
Proof. split; [exact late_start_sample | lia]. Qed.

(** C9, amended: normalisation enforces no order between the two times.
    When [normalizeProviderEvents] returns for one of the three providers,
    every item of the batch has its event at the same position, and the
    event's [startTime] and [endTime] are the dates made from the item's
    start and end, whichever comes first: a zero-duration item is kept,
    and so is one that ends before it starts. *)
Theorem normalize_keeps_any_time_order rt c data items events (i : nat) item :
  provider c <> custom -> itemsOf data = Ok (VArr items) ->
  normalizeProviderEvents rt c data = Ok events ->
  items !! i = Some item ->
  length events = length items
  /\ exists e, events !! i = Some e
               /\ newDate rt (startField (provider c) item)
                  = Ok (startTime e)
               /\ newDate rt (endField (provider c) item)
                  = Ok (endTime e).
Proof.
  intros Hp Hi Hn Hitem.
  destruct (normalize_known rt c data items Hp Hi) as (f & E & Hf).
  rewrite E in Hn. destruct (mapM_Ok_lookup f items events Hn) as [Hlen Hall].
  split; [done|]. destruct (Hall i item Hitem) as (e & He & Hfe).
  exists e. split; [done|].
  specialize (Hf item). unfold reads in Hf.
  destruct (readable (provider c) item); [|congruence].
  destruct Hf as (e' & He' & Hs & Hn' & _).
  assert (e' = e) as -> by congruence. done.
Qed.

Lemma normalize_keeps_any_time_order_witness :
  length [ {| id := VStr "a"; title := VStr "a";
              startTime := Num 1704189600000; endTime := Num 1704103200000;
              description := VStr "notes"; sourceCalendar := "google";
              timestamp := Num 1704096000000 |} ] = 1%nat
  /\ exists e,
       [ {| id := VStr "a"; title := VStr "a";
            startTime := Num 1704189600000; endTime := Num 1704103200000;
            description := VStr "notes"; sourceCalendar := "google";
            timestamp := Num 1704096000000 |} ] !! 0%nat = Some e
       /\ Ok (Num 1704189600000) = Ok (startTime e)
       /\ Ok (Num 1704103200000) = Ok (endTime e).
Proof.
  exact (normalize_keeps_any_time_order Ecma.runtime
           (configFor google "timestamp")
           (VArr [googleItem "a" "2024-01-02T10:00:00Z" "2024-01-01T10:00:00Z"])
           [googleItem "a" "2024-01-02T10:00:00Z" "2024-01-01T10:00:00Z"]
           _ 0%nat _ ltac:(discriminate) eq_refl
           late_start_sample eq_refl).
Defined.

Lemma normalize_keeps_single rt c x e :
  provider c <> custom ->
  normalizeProviderEvents rt c (VArr [x]) = Ok [e] ->
  newDate rt (startField (provider c) x) = Ok (startTime e)
  /\ newDate rt (endField (provider c) x) = Ok (endTime e)
  /\ Ok (title e) = path x (titlePath (provider c))
  /\ Ok (description e) = path x (descriptionPath (provider c)).
Proof.
  intros Hp Hn.
  destruct (normalize_known rt c (VArr [x]) [x] Hp eq_refl) as (f & E & Hf).
  rewrite E in Hn. simpl in Hn. run.
  specialize (Hf x). unfold reads in Hf.
  destruct (readable (provider c) x).
  - destruct Hf as (e' & He' & Hf). rewrite He' in Hn. by injection Hn as ->.
  - by rewrite Hf in Hn.
Qed.

(** What a payload built by [formatEventForProvider] holds. *)
Lemma format_payload rt c e y :
  formatEventForProvider rt c e = Ok (Payload y) ->
  exists s n,
    startTime e = Num s /\ endTime e = Num n
    /\ path y (titlePath (provider c)) = Ok (title e)
    /\ (provider c <> outlook ->
        path y (descriptionPath (provider c)) = Ok (description e))
    /\ (provider c = outlook ->
        path y ["body"; "content"] = Ok (description e)
        /\ path y ["bodyPreview"] = Ok VUndefined)
    /\ path y (startPath (provider c)) = Ok (VStr (toISOString rt s))
    /\ path y (endPath (provider c)) = Ok (VStr (toISOString rt n)).
Proof.
  unfold formatEventForProvider. intros H.
  destruct (provider c) eqn:Ep; simpl in H; try done;
    destruct (startTime e) as [|s]; simpl in H; try done;
    destruct (endTime e) as [|n]; simpl in H; try done;
    run; injection H as <-; exists s, n; repeat split; done.
Qed.

Example outlook_round_trip_sample :
  denormalizeNormalized Ecma.runtime (configFor outlook "timestamp") outlookItem
  = Some (VObj [("subject", VStr "Review");
                ("body", VObj [("content", VStr "notes");
                               ("contentType", VStr "text")]);
                ("start", VObj [("dateTime", VStr "2024-01-01T10:00:00.000Z");
                                ("timeZone", VStr "UTC")]);
                ("end", VObj [("dateTime", VStr "2024-01-01T11:00:00.000Z");
                              ("timeZone", VStr "UTC")])]).
Proof. vm_compute. reflexivity. Qed.

(** C4, as the specification states it, fails on two of the fields. The
    outlook adapter reads the description from [bodyPreview] and writes it
    to [body.content], so the payload it builds has no [bodyPreview]; and
    every adapter writes a time as the UTC string of [toISOString], which
    is not the string it read unless that had this very form (the google
    item below gives its start as [2024-01-01T10:00:00Z]). *)
Lemma round_trip_changes_fields :
  (exists y,
     denormalizeNormalized Ecma.runtime (configFor outlook "timestamp")
       outlookItem = Some y
     /\ path outlookItem ["bodyPreview"] = Ok (VStr "notes")
     /\ path y ["bodyPreview"] = Ok VUndefined)
  /\ (exists x y,
       x = googleItem "a" "2024-01-01T10:00:00Z" "2024-01-01T11:00:00Z"
       /\ denormalizeNormalized Ecma.runtime (configFor google "timestamp") x
          = Some y
       /\ path x ["start"; "dateTime"] = Ok (VStr "2024-01-01T10:00:00Z")
       /\ path y ["start"; "dateTime"] = Ok (VStr "2024-01-01T10:00:00.000Z")).
Proof.
  split.
  - eexists. split; [exact outlook_round_trip_sample|]. split; reflexivity.
  - eexists _, _. split; [reflexivity|].
    split; [vm_compute; reflexivity|]. split; reflexivity.
Qed.

(** C4, amended: when denormalising the normalisation of a payload [x]
    gives a payload [y], the title of [y] is the title of [x] for each of
    the three providers, and the description of [y] is the description of
    [x] for google and apple. For outlook the description of [x], read
    from [bodyPreview], is found in [y] under [body.content], and [y] has
    no [bodyPreview]. The start
    and the end of [y] are the [toISOString] renderings of the instants
    made from the start and the end of [x]. *)
Theorem round_trip_fields rt c x y :
  denormalizeNormalized rt c x = Some y ->
  path y (titlePath (provider c)) = path x (titlePath (provider c))
  /\ (provider c <> outlook ->
      path y (descriptionPath (provider c))
      = path x (descriptionPath (provider c)))
  /\ (provider c = outlook ->
      path y ["body"; "content"] = path x ["bodyPreview"]
      /\ path y ["bodyPreview"] = Ok VUndefined)
  /\ exists s n,
       newDate rt (startField (provider c) x) = Ok (Num s)
       /\ newDate rt (endField (provider c) x) = Ok (Num n)
       /\ path y (startPath (provider c)) = Ok (VStr (toISOString rt s))
       /\ path y (endPath (provider c)) = Ok (VStr (toISOString rt n)).
Proof.
  unfold denormalizeNormalized. intros H.
  destruct (normalizeProviderEvents rt c (VArr [x])) as [[|e [|e' es]]|] eqn:En;
    try done.
  destruct (formatEventForProvider rt c e) as [[y'|]|] eqn:Ef; try done.
  injection H as ->.
  assert (provider c <> custom) as Hp.
  { intros E. unfold normalizeProviderEvents in En. by rewrite E in En. }
  destruct (normalize_keeps_single rt c x e Hp En) as (Hs & Hn & Ht & Hd).
  destruct (format_payload rt c e y Ef)
    as (s & n & Es & En' & Pt & Pd & Pb & Ps & Pe).
  split; [|split; [|split]].
  - by rewrite Pt, Ht.
  - intros Ho. by rewrite (Pd Ho), Hd.
  - intros Ho. destruct (Pb Ho) as [Pc Pn]. split; [|done].
    rewrite Pc, Hd. by rewrite Ho.
  - exists s, n. by rewrite Hs, Hn, Es, En'.
Qed.

Lemma round_trip_fields_witness :
  path (VObj [("subject", VStr "Review");
              ("body", VObj [("content", VStr "notes");
                             ("contentType", VStr "text")]);
              ("start", VObj [("dateTime", VStr "2024-01-01T10:00:00.000Z");
                              ("timeZone", VStr "UTC")]);
              ("end", VObj [("dateTime", VStr "2024-01-01T11:00:00.000Z");
                            ("timeZone", VStr "UTC")])])
       ["subject"]
  = path outlookItem ["subject"].
Proof.
  exact (proj1 (round_trip_fields Ecma.runtime (configFor outlook "timestamp")
                  outlookItem _ outlook_round_trip_sample)).
Defined.

(** C7, as the specification states it, fails for normalisation: with a
    provider tag that is none of the three (here the tag [custom]),
    [normalizeProviderEvents] hands back the empty list, not the events
    of the payload. Here the payload holds one event. *)
Lemma custom_normalization_drops_events :
  providerOfTag "custom" = Some custom
  /\ normalizeProviderEvents Ecma.runtime (configFor custom "timestamp")
       (VArr [canonicalItem]) = Ok []
  /\ normalizeProviderEvents Ecma.runtime (configFor custom "timestamp")
       (VObj [("items", VArr [canonicalItem])]) = Ok [].
Proof. repeat split; reflexivity. Qed.

(** A tag that is none of the three and names no inherited member stands
    for [custom]. *)
Lemma providerOfTag_custom tag :
  tag <> "google" -> tag <> "apple" -> tag <> "outlook" ->
  ~ In tag objectPrototypeMembers ->
  providerOfTag tag = Some custom.
Proof.
  intros Hg Ha Ho Hm. unfold providerOfTag.
  apply String.eqb_neq in Hg, Ha, Ho. rewrite Hg, Ha, Ho.
  destruct (existsb (String.eqb tag) objectPrototypeMembers) eqn:E; [|done].
  apply existsb_exists in E as (m & Hin & Heq).
  apply String.eqb_eq in Heq as <-. by destruct Hm.
Qed.

(** A tag that names an inherited member stands for no provider of the
    model. *)
Lemma providerOfTag_inherited tag :
  In tag objectPrototypeMembers -> providerOfTag tag = None.
Proof.
  simpl. intros H.
  repeat destruct H as [<-|H]; try reflexivity. destruct H.
Qed.

(** C7, amended: with a provider tag that is none of the three and names
    no member of [Object.prototype], the endpoint is the [apiEndpoint] of
    the configuration, [formatEventForProvider] hands back the event it
    was given, and [normalizeProviderEvents] returns the empty list
    whatever the payload is; none of the three fails. *)
Theorem custom_provider_fallback rt tag c data event :
  tag <> "google" -> tag <> "apple" -> tag <> "outlook" ->
  ~ In tag objectPrototypeMembers ->
  providerOfTag tag = Some (provider c) ->
  getProviderEndpoint c = apiEndpoint c
  /\ formatEventForProvider rt c event = Ok (Same event)
  /\ normalizeProviderEvents rt c data = Ok [].
Proof.
  intros Hg Ha Ho Hm Hc.
  rewrite (providerOfTag_custom tag Hg Ha Ho Hm) in Hc. injection Hc as Hc.
  unfold getProviderEndpoint, formatEventForProvider, normalizeProviderEvents.
  by rewrite <- Hc.
Qed.

Lemma custom_provider_fallback_witness :
  getProviderEndpoint (configFor custom "timestamp")
  = "https://calendar.example/api"
  /\ formatEventForProvider Ecma.runtime (configFor custom "timestamp")
       (event "edited here" "native" (Num 100))
     = Ok (Same (event "edited here" "native" (Num 100)))
  /\ normalizeProviderEvents Ecma.runtime (configFor custom "timestamp")
       (VArr [canonicalItem]) = Ok [].
Proof.
  refine (custom_provider_fallback Ecma.runtime "custom"
            (configFor custom "timestamp")
            (VArr [canonicalItem]) (event "edited here" "native" (Num 100))
            _ _ _ _ eq_refl); try discriminate.
  simpl. intros H. repeat destruct H as [H|H]; try discriminate H. done.
Defined.

End AdapterProps.

(* ===================================================================== *)
(** * Properties of fetching and polling                                  *)
(* ===================================================================== *)

Module SyncProps.
Import Js CalendarSync Samples Notions.

Section Fetching.
Variable rt : Runtime.
Variable server : nat -> Response.
Variable c : CalendarSyncConfig.

(** [normalizeProviderEvents] throws nothing but a [TypeError]. *)
Lemma normalize_throws_TypeError data err :
  normalizeProviderEvents rt c data = Throw err -> err = TypeError.
Proof.
  unfold normalizeProviderEvents.
  destruct (normalizers rt (provider c)) as [n|] eqn:En; [|done].
  destruct (AdapterProps.normalizers_reads rt _ n En) as (f & -> & Hf).
  assert (forall items, mapItems f items = Throw err -> err = TypeError) as Hm.
  { intros [| |b|m|t|xs|fs]; simpl; try congruence.
    induction xs as [|x xs IH]; simpl; [done|].
    unfold mbind, result_bind.
    destruct (f x) as [y|e] eqn:Ef.
    - destruct (mapM f xs); [done|]. intros [= ->]. by apply IH.
    - intros [= ->].
      by apply (proj2 (AdapterProps.reads_Throw rt _ f Hf) x). }
  unfold mbind, result_bind, orElse.
  destruct (get data "items") as [a|e] eqn:Ea.
  - destruct (truthy a); [apply Hm|].
    destruct (get data "value") as [b|e] eqn:Eb.
    + destruct (truthy b); apply Hm.
    + destruct data; simpl in Eb; congruence.
  - destruct data; simpl in Ea; congruence.
Qed.

(** A fetch ends in an authorisation failure exactly on a 401 answer. *)
Lemma outcome_unauthorized r :
  match outcome rt c r with
  | Throw err => unauthorized err
  | Ok _ => false
  end = match r with
        | Status code _ => code =? 401
        | NoResponse => false
        end.
Proof.
  unfold outcome, mbind, result_bind, settle.
  destruct r as [code data|]; [|done].
  destruct ((200 <=? code) && (code <? 300)) eqn:E.
  - assert ((code =? 401) = false) as -> by lia.
    destruct (normalizeProviderEvents rt c data) as [evs|err] eqn:En; [done|].
    by rewrite (normalize_throws_TypeError _ _ En).
  - done.
Qed.

Lemma fetch_unfold fuel w :
  fetchRemoteEvents rt server (S fuel) c w =
    let w1 := snd (axios_get server (getProviderEndpoint c) (accessToken c) w) in
    match outcome rt c (server (requests w)) with
    | Ok events => Some (Ok events, w1)
    | Throw error =>
        if unauthorized error
        then fetchRemoteEvents rt server fuel c (refreshAccessToken w1)
        else Some (Throw error, w1)
    end.
Proof. reflexivity. Qed.



End Fetching.





Section Polling.
Variable rt : Runtime.
Variable server : nat -> Response.

(** Fetching touches no timer. *)
Lemma fetch_timers fuel : forall c w r w',
  fetchRemoteEvents rt server fuel c w = Some (r, w') -> timers w' = timers w.
Proof.
  induction fuel as [|fuel IH]; intros c w r w' H; [done|].
  rewrite fetch_unfold in H. cbv zeta in H.
  destruct (outcome rt c (server (requests w))) as [evs|err].
  - by injection H as _ <-.
  - destruct (unauthorized err).
    + by rewrite (IH _ _ _ _ H).
    + by injection H as _ <-.
Qed.

(** After [startPolling] the service holds the handle of the one polling
    timer there is. *)
Lemma startPolling_owns ms s w :
  ownsItsTimer s w ->
  syncInterval (startPolling ms s w).1 = Some (nextTimer w)
  /\ forall h, timers (startPolling ms s w).2 !! h = Some Poll
               <-> h = nextTimer w.
Proof.
  intros Hown. unfold startPolling, setInterval, clearInterval.
  destruct (syncInterval s) as [h0|] eqn:E0; simpl; (split; [done|]);
    intros h; destruct (decide (h = nextTimer w)) as [->|Hne].
  - by rewrite lookup_insert_eq.
  - rewrite lookup_insert_ne by done. split; [|done].
    destruct (decide (h = h0)) as [->|Hne0].
    + by rewrite lookup_delete_eq.
    + rewrite lookup_delete_ne by done. intros Hp.
      apply Hown in Hp. congruence.
  - by rewrite lookup_insert_eq.
  - rewrite lookup_insert_ne by done. split; [|done].
    intros Hp. apply Hown in Hp. congruence.
Qed.

(** After [stopSync] the service holds no handle and no polling timer is
    active. *)
Lemma stopSync_clears s w :
  ownsItsTimer s w ->
  syncInterval (stopSync s w).1 = None /\ noPoll (stopSync s w).2.
Proof.
  intros Hown. unfold stopSync, clearInterval, noPoll.
  destruct (syncInterval s) as [h0|] eqn:E0; simpl; (split; [done|]);
    intros h Hp.
  - destruct (decide (h = h0)) as [->|Hne0].
    + by rewrite lookup_delete_eq in Hp.
    + rewrite lookup_delete_ne in Hp by done. apply Hown in Hp. congruence.
  - apply Hown in Hp. congruence.
Qed.

Lemma owns_of_parts s w :
  (syncInterval s = None /\ noPoll w)
  \/ (exists h0, syncInterval s = Some h0
                 /\ forall h, timers w !! h = Some Poll <-> h = h0) ->
  ownsItsTimer s w.
Proof.
  intros [[Hs Hn]|(h0 & Hs & Hh)] h; rewrite Hs.
  - split; [by intros ?%Hn | done].
  - rewrite Hh. split; [by intros -> | by intros [= ->]].
Qed.

Lemma step_owns x y :
  step rt server x y -> ownsItsTimer x.1 x.2 -> ownsItsTimer y.1 y.2.
Proof.
  intros Hstep. destruct Hstep as
    [fuel s w r s' w' Hi | fuel s w r w' Hf | ms s w | s w | fuel h s w w' Hh Hp];
    simpl; intros Hown.
  - unfold initializeSync in Hi.
    destruct (fetchRemoteEvents rt server fuel (config s) w)
      as [[[evs|err] w1]|] eqn:Ef; [| |done].
    + assert (ownsItsTimer s w1) as Hown1.
      { intros h'. rewrite (fetch_timers _ _ _ _ _ Ef). apply Hown. }
      destruct (startPolling_owns 30000 s w1 Hown1) as [H1 H2].
      destruct (startPolling 30000 s w1) as [s2 w2] eqn:Esp.
      injection Hi as _ <- <-. apply owns_of_parts. right. eauto.
    + injection Hi as _ <- <-. intros h'. simpl.
      rewrite (fetch_timers _ _ _ _ _ Ef). apply Hown.
  - intros h'. rewrite (fetch_timers _ _ _ _ _ Hf). apply Hown.
  - destruct (startPolling_owns ms s w Hown) as [H1 H2].
    apply owns_of_parts. right. eauto.
  - destruct (stopSync_clears s w Hown) as [H1 H2].
    apply owns_of_parts. by left.
  - unfold poll in Hp.
    destruct (fetchRemoteEvents rt server fuel (config s) w)
      as [[[evs|err] w1]|] eqn:Ef; [| |done]; injection Hp as <-;
      intros h'; simpl; rewrite (fetch_timers _ _ _ _ _ Ef); apply Hown.
Qed.

Lemma steps_own x y :
  rtc (step rt server) x y -> ownsItsTimer x.1 x.2 -> ownsItsTimer y.1 y.2.
Proof.
  induction 1 as [x|x y z Hxy _ IH]; [done|].
  intros Hx. apply IH. by apply (step_owns x y).
Qed.

End Polling.

(** C10: a service holds at most one active polling timer. In every state
    a fresh service reaches (in a world without polling timers) through
    any sequence of [initializeSync], [startPolling], [stopSync], fetches
    and timer ticks: no two polling timers are active; [startPolling]
    leaves the new timer as the only one, with its handle in
    [syncInterval]; [stopSync] leaves no polling timer and a [null]
    handle; and a second [stopSync] changes nothing. *)
Theorem at_most_one_poll_timer rt server c w s' w' :
  noPoll w ->
  rtc (step rt server) (new c, w) (s', w') ->
  (forall h1 h2, timers w' !! h1 = Some Poll -> timers w' !! h2 = Some Poll ->
                 h1 = h2)
  /\ (forall ms,
        syncInterval (startPolling ms s' w').1 = Some (nextTimer w')
        /\ forall h, timers (startPolling ms s' w').2 !! h = Some Poll
                     <-> h = nextTimer w')
  /\ syncInterval (stopSync s' w').1 = None
  /\ noPoll (stopSync s' w').2
  /\ stopSync (stopSync s' w').1 (stopSync s' w').2 = stopSync s' w'.
Proof.
  intros Hno Hsteps.
  assert (ownsItsTimer s' w') as Hown.
  { apply (steps_own rt server _ _ Hsteps). simpl.
    apply owns_of_parts. by left. }
  split; [|split; [|split; [|split]]].
  - intros h1 h2 H1%Hown H2%Hown. congruence.
  - intros ms. by apply startPolling_owns.
  - by apply stopSync_clears.
  - by apply stopSync_clears.
  - destruct (stopSync_clears s' w' Hown) as [Hnone _].
    destruct (stopSync s' w') as [s2 w2]. simpl in *.
    unfold stopSync. by rewrite Hnone.
Qed.

Lemma at_most_one_poll_timer_witness :
  (forall h1 h2,
     timers startedTwice.2 !! h1 = Some Poll ->
     timers startedTwice.2 !! h2 = Some Poll -> h1 = h2)
  /\ syncInterval (stopSync startedTwice.1 startedTwice.2).1 = None.
Proof.
  refine (let H := at_most_one_poll_timer Ecma.runtime (fun _ => NoResponse)
                     (configFor google "timestamp") quietWorld
                     startedTwice.1 startedTwice.2 _ _ in
          conj (proj1 H) (proj1 (proj2 (proj2 H)))).
  - intros h. unfold quietWorld. simpl.
    destruct (decide (h = 1%positive)) as [->|Hne].
    + by rewrite lookup_singleton_eq.
    + by rewrite lookup_singleton_ne.
  - eapply rtc_l; [apply (step_start _ _ 1000)|].
    eapply rtc_l; [apply (step_start _ _ 500)|].
    apply rtc_refl.
Defined.

End SyncProps.

(* ===================================================================== *)
(** * Properties of the realtime channel                                  *)
(* ===================================================================== *)

Module RealtimeProps.
Import Js Samples RealtimeSync SyncQueue.




End RealtimeProps.

(* ===================================================================== *)
(** * Conflict resolution: further properties                             *)
(* ===================================================================== *)

Module ConflictExtras.
Import Js CalendarSync Samples Notions MoreNotions.

Lemma winner_default c l r el er :
  byTimestamp c ->
  winner c l r el er = if gt (timestamp el) (timestamp er) then l else r.
Proof.
  intros [Hs Hl]. unfold winner.
  apply String.eqb_neq in Hs, Hl. by rewrite Hs, Hl.
Qed.

(** X1: under "timestamp", and under any strategy string that is neither
    "source" nor "local", the order of the two arguments does not matter
    when the timestamps are two different numbers: both orders hand back
    the same reference, the one of the newer event. *)
Theorem timestamp_order_irrelevant c (σ : Store) l r el er a b :
  byTimestamp c ->
  σ !! l = Some el -> σ !! r = Some er ->
  timestamp el = Num a -> timestamp er = Num b -> a <> b ->
  resolveConflict c l r σ = Some ((if b <? a then l else r), σ)
  /\ resolveConflict c r l σ = Some ((if b <? a then l else r), σ).
Proof.
  intros Hc Hl Hr Ha Hb Hab.
  rewrite (ConflictProps.resolveConflict_winner c σ l r el er Hl Hr).
  rewrite (ConflictProps.resolveConflict_winner c σ r l er el Hr Hl).
  rewrite !winner_default by done. rewrite Ha, Hb. simpl.
  destruct (Z.ltb_spec b a), (Z.ltb_spec a b); try done; lia.
Qed.

Lemma timestamp_order_irrelevant_witness :
  resolveConflict (configFor google "newest") localRef remoteRef
    (versions (Num 100) (Num 200))
  = Some (remoteRef, versions (Num 100) (Num 200))
  /\ resolveConflict (configFor google "newest") remoteRef localRef
       (versions (Num 100) (Num 200))
     = Some (remoteRef, versions (Num 100) (Num 200)).
Proof.
  refine (timestamp_order_irrelevant (configFor google "newest")
            (versions (Num 100) (Num 200)) localRef remoteRef
            (event "edited here" "native" (Num 100))
            (event "edited there" "google" (Num 200)) 100 200
            _ eq_refl eq_refl eq_refl eq_refl _).
  - split; discriminate.
  - lia.
Defined.

(** X2: under "timestamp" (or any strategy string that is neither "source"
    nor "local"), an event whose timestamp is [NaN] never wins as the
    local version and always wins as the remote one: as soon as one of the
    two timestamps is [NaN] the remote reference is handed back. *)
Theorem nan_timestamp_keeps_remote c (σ : Store) l r el er :
  byTimestamp c ->
  σ !! l = Some el -> σ !! r = Some er ->
  timestamp el = NaN \/ timestamp er = NaN ->
  resolveConflict c l r σ = Some (r, σ).
Proof.
  intros Hc Hl Hr Hnan.
  rewrite (ConflictProps.resolveConflict_winner c σ l r el er Hl Hr).
  rewrite winner_default by done.
  destruct Hnan as [-> | ->]; [done|]. by destruct (timestamp el).
Qed.

Lemma nan_timestamp_keeps_remote_witness :
  resolveConflict (configFor google "timestamp") localRef remoteRef
    (versions (Num 100) NaN)
  = Some (remoteRef, versions (Num 100) NaN).
Proof.
  refine (nan_timestamp_keeps_remote (configFor google "timestamp")
            (versions (Num 100) NaN) localRef remoteRef
            (event "edited here" "native" (Num 100))
            (event "edited there" "google" NaN)
            _ eq_refl eq_refl (or_intror eq_refl)).
  split; discriminate.
Defined.

End ConflictExtras.

(* ===================================================================== *)
(** * Provider adapters: further properties                               *)
(* ===================================================================== *)

Module AdapterExtras.
Import Js CalendarSync Samples Notions MoreNotions.

Ltac run := unfold mbind, result_bind, orElse in *; simpl in *.

(** Case analysis on every [match] scrutinee of a hypothesis. *)
Ltac crack H :=
  repeat match type of H with
         | context [match ?x with _ => _ end] =>
             destruct x eqn:?; try discriminate H
         end.

Lemma google_item_tag rt item e :
  google_item rt item = Ok e -> sourceCalendar e = "google".
Proof.
  unfold google_item, mbind, result_bind, orElse. intros H. crack H.
  by injection H as <-.
Qed.

Lemma apple_item_tag rt item e :
  apple_item rt item = Ok e -> sourceCalendar e = "apple".
Proof.
  unfold apple_item, mbind, result_bind. intros H. crack H.
  by injection H as <-.
Qed.

Lemma outlook_item_tag rt item e :
  outlook_item rt item = Ok e -> sourceCalendar e = "outlook".
Proof.
  unfold outlook_item, mbind, result_bind. intros H. crack H.
  by injection H as <-.
Qed.

(** With a known provider, [normalizeProviderEvents] picks the batch out of
    the response and maps the callback of the provider over it. *)
Lemma normalize_as_map rt c :
  provider c <> custom ->
  exists f,
    (forall data, normalizeProviderEvents rt c data
                  = (items ← itemsOf data; mapItems f items))
    /\ (forall item e, f item = Ok e ->
          sourceCalendar e = providerTag (provider c)).
Proof.
  intros Hp. unfold normalizeProviderEvents, itemsOf.
  destruct (provider c); [| | |done].
  - exists (google_item rt). split; [|apply google_item_tag].
    intros data. run. destruct (get data "items") as [a|]; [|done]. simpl.
    destruct (truthy a); [done|].
    by destruct (get data "value") as [b|].
  - exists (apple_item rt). split; [|apply apple_item_tag].
    intros data. run. destruct (get data "items") as [a|]; [|done]. simpl.
    destruct (truthy a); [done|].
    by destruct (get data "value") as [b|].
  - exists (outlook_item rt). split; [|apply outlook_item_tag].
    intros data. run. destruct (get data "items") as [a|]; [|done]. simpl.
    destruct (truthy a); [done|].
    by destruct (get data "value") as [b|].
Qed.

Lemma mapM_Ok_elem {A B} (f : A -> result B) xs ys y :
  mapM f xs = Ok ys -> In y ys -> exists x, In x xs /\ f x = Ok y.
Proof.
  revert ys. induction xs as [|x xs IH]; intros ys H Hy; simpl in H.
  - injection H as <-. destruct Hy.
  - run. destruct (f x) as [y0|] eqn:Ef; [|done].
    destruct (mapM f xs) as [ys'|] eqn:Em; [|done].
    injection H as <-. destruct Hy as [<-|Hy].
    + exists x. auto.
    + destruct (IH ys' eq_refl Hy) as (x' & Hx' & Hf). exists x'. auto.
Qed.

(** X3: how a response is opened. With a known provider, the batch is the
    array under [items]; without a usable [items], the array under
    [value]; a bare array is its own batch. A body that is an object with
    neither, or [null], makes [normalizeProviderEvents] throw a
    [TypeError], and so does an [items] that is set but is not an array. *)
Theorem response_envelope rt c fs :
  provider c <> custom ->
  (forall xs, assoc "items" fs = VArr xs ->
     normalizeProviderEvents rt c (VObj fs)
     = normalizeProviderEvents rt c (VArr xs))
  /\ (forall xs, truthy (assoc "items" fs) = false ->
       assoc "value" fs = VArr xs ->
       normalizeProviderEvents rt c (VObj fs)
       = normalizeProviderEvents rt c (VArr xs))
  /\ (truthy (assoc "items" fs) = false ->
      truthy (assoc "value" fs) = false ->
      normalizeProviderEvents rt c (VObj fs) = Throw TypeError)
  /\ (truthy (assoc "items" fs) = true ->
      (forall xs, assoc "items" fs <> VArr xs) ->
      normalizeProviderEvents rt c (VObj fs) = Throw TypeError)
  /\ normalizeProviderEvents rt c VNull = Throw TypeError.
Proof.
  intros Hp. destruct (normalize_as_map rt c Hp) as (f & Hn & _).
  rewrite !Hn. unfold itemsOf. run.
  split; [|split; [|split; [|split]]]; try done.
  - intros xs E. by rewrite Hn, E.
  - intros xs E1 E2. by rewrite Hn, E1, E2.
  - intros E1 E2. by rewrite E1, E2.
  - intros E1 E2. rewrite E1.
    destruct (assoc "items" fs) as [| |b|n|s|xs|gs]; try done.
    by destruct (E2 xs).
Qed.

Lemma response_envelope_witness :
  normalizeProviderEvents Ecma.runtime (configFor outlook "timestamp")
    (VObj [("message", VStr "throttled")]) = Throw TypeError.
Proof.
  refine (proj1 (proj2 (proj2 (response_envelope Ecma.runtime
                                 (configFor outlook "timestamp")
                                 [("message", VStr "throttled")] _)))
            eq_refl eq_refl).
  discriminate.
Defined.

(** X4: every event [normalizeProviderEvents] returns carries the name of
    the provider in [sourceCalendar], never "native"; so under the
    "source" strategy a normalized event, as the remote version, wins
    against any local version. *)
Theorem normalized_event_wins_by_source rt c data events e (σ : Store) l r :
  provider c <> custom ->
  conflictResolution c = "source" ->
  normalizeProviderEvents rt c data = Ok events ->
  In e events ->
  σ !! r = Some e ->
  sourceCalendar e = providerTag (provider c)
  /\ resolveConflict c l r σ = Some (r, σ).
Proof.
  intros Hp Hc Hn He Hr.
  destruct (normalize_as_map rt c Hp) as (f & Hm & Htag).
  rewrite Hm in Hn. run.
  destruct (itemsOf data) as [items|]; [|done]. simpl in Hn.
  destruct items as [| |b|n|s|xs|fs]; try done. simpl in Hn.
  destruct (mapM_Ok_elem f xs events e Hn He) as (x & _ & Hx).
  pose proof (Htag x e Hx) as Ht. split; [done|].
  unfold resolveConflict, st_bind, deref, st_ret. rewrite Hc. simpl.
  rewrite Hr, Ht. by destruct (provider c).
Qed.

Lemma normalized_event_wins_by_source_witness :
  sourceCalendar (event "edited there" "google" (Num 100)) = "google"
  /\ resolveConflict (configFor google "source") localRef remoteRef
       (versions (Num 200) (Num 100))
     = Some (remoteRef, versions (Num 200) (Num 100)).
Proof.
  refine (normalized_event_wins_by_source Ecma.runtime
            (configFor google "source")
            (VArr [VObj [("id", VStr "e1"); ("summary", VStr "edited there");
                         ("start", VObj [("dateTime",
                                          VStr "2024-01-01T10:00:00Z")]);
                         ("end", VObj [("dateTime",
                                        VStr "2024-01-01T11:00:00Z")]);
                         ("updated", VStr "1970-01-01T00:00:00.100Z")]])
            [event "edited there" "google" (Num 100)]
            (event "edited there" "google" (Num 100))
            (versions (Num 200) (Num 100)) localRef remoteRef
            _ eq_refl _ (or_introl eq_refl) eq_refl).
  - discriminate.
  - vm_compute. reflexivity.
Defined.

(** X5: for a known provider, [formatEventForProvider] throws exactly when
    one of the two dates of the event is an Invalid Date, and what it
    throws then is a [RangeError]; with two valid dates it builds a
    payload. *)
Theorem format_fails_on_invalid_dates rt c e :
  provider c <> custom ->
  (startTime e = NaN \/ endTime e = NaN ->
     formatEventForProvider rt c e = Throw RangeError)
  /\ (forall s n, startTime e = Num s -> endTime e = Num n ->
        exists y, formatEventForProvider rt c e = Ok (Payload y)).
Proof.
  intros Hp. unfold formatEventForProvider. split.
  - intros H. destruct (provider c); try done; simpl;
      destruct (startTime e), (endTime e); simpl; try done;
      destruct H; done.
  - intros s n Hs Hn.
    destruct (provider c); try done; simpl; rewrite Hs, Hn; simpl; eauto.
Qed.

Lemma format_fails_on_invalid_dates_witness :
  formatEventForProvider Ecma.runtime (configFor apple "timestamp")
    {| id := VStr "bare"; title := VUndefined; startTime := NaN;
       endTime := NaN; description := VUndefined;
       sourceCalendar := "apple"; timestamp := NaN |}
  = Throw RangeError.
Proof.
  refine (proj1 (format_fails_on_invalid_dates Ecma.runtime
                   (configFor apple "timestamp")
                   {| id := VStr "bare"; title := VUndefined;
                      startTime := NaN; endTime := NaN;
                      description := VUndefined; sourceCalendar := "apple";
                      timestamp := NaN |} _) (or_introl eq_refl)).
  discriminate.
Defined.

(** X6: from an event to a payload and back. For a known provider and an
    event with two valid dates whose ISO strings the runtime reads back,
    normalising the payload [formatEventForProvider] builds gives one
    event with the same title, start and end. Its description is the
    same for google and apple and [undefined] for outlook; its [id] is
    [undefined], its [sourceCalendar] is the name of the provider, and
    its timestamp is what [Date.parse] makes of [undefined]: the payload
    carries none of the three. *)
Theorem event_payload_event rt c e s n :
  provider c <> custom ->
  startTime e = Num s -> endTime e = Num n ->
  toISOString rt s <> "" -> toISOString rt n <> "" ->
  Date_parse rt (toISOString rt s) = Num s ->
  Date_parse rt (toISOString rt n) = Num n ->
  exists y,
    formatEventForProvider rt c e = Ok (Payload y)
    /\ normalizeProviderEvents rt c (VArr [y])
       = Ok [ {| id := VUndefined; title := title e;
                 startTime := Num s; endTime := Num n;
                 description := match provider c with
                                | outlook => VUndefined
                                | _ => description e
                                end;
                 sourceCalendar := providerTag (provider c);
                 timestamp := Date_parse rt (ToString rt VUndefined) |} ].
Proof.
  intros Hp Hs Hn Is In' Ps Pn.
  apply String.eqb_neq in Is, In'.
  unfold formatEventForProvider, normalizeProviderEvents.
  destruct (provider c); try done; simpl; rewrite Hs, Hn; simpl;
    eexists; (split; [reflexivity|]);
    unfold google_item, mbind, result_bind, orElse; simpl;
    rewrite ?Is, ?In'; simpl; by rewrite Ps, Pn.
Qed.

Lemma event_payload_event_witness :
  exists y,
    formatEventForProvider Ecma.runtime (configFor google "timestamp")
      (event "edited here" "native" (Num 100)) = Ok (Payload y)
    /\ normalizeProviderEvents Ecma.runtime (configFor google "timestamp")
         (VArr [y])
       = Ok [ {| id := VUndefined; title := VStr "edited here";
                 startTime := Num 1704103200000;
                 endTime := Num 1704106800000;
                 description := VUndefined;
                 sourceCalendar := "google";
                 timestamp := NaN |} ].
Proof.
  refine (event_payload_event Ecma.runtime (configFor google "timestamp")
            (event "edited here" "native" (Num 100))
            1704103200000 1704106800000 _ eq_refl eq_refl _ _ _ _).
  - discriminate.
  - vm_compute. discriminate.
  - vm_compute. discriminate.
  - vm_compute. reflexivity.
  - vm_compute. reflexivity.
Defined.

End AdapterExtras.

(* ===================================================================== *)
(** * Fetching and polling: further properties                            *)
(* ===================================================================== *)

Module SyncExtras.
Import Js CalendarSync Samples MoreSamples Notions MoreNotions.

Section Runs.
Variable rt : Runtime.
Variable server : nat -> Response.

(** What a fetch that returns has done to the world. *)
Lemma fetch_frame fuel : forall c w r w',
  fetchRemoteEvents rt server fuel c w = Some (r, w') ->
  exists es,
    trace w' = (es ++ trace w)%list
    /\ Forall (fetchEffect c) es
    /\ length (List.filter isGet es) = S (length (List.filter isRefresh es))
    /\ requests w' = (requests w + length (List.filter isGet es))%nat
    /\ timers w' = timers w /\ nextTimer w' = nextTimer w.
Proof.
  induction fuel as [|fuel IH]; intros c w r w' H; [done|].
  rewrite SyncProps.fetch_unfold in H. cbv zeta in H.
  assert (forall x, (Some (x, (axios_get server (getProviderEndpoint c)
                                 (accessToken c) w).2) = Some (r, w')) ->
          exists es,
            trace w' = (es ++ trace w)%list
            /\ Forall (fetchEffect c) es
            /\ length (List.filter isGet es)
               = S (length (List.filter isRefresh es))
            /\ requests w'
               = (requests w + length (List.filter isGet es))%nat
            /\ timers w' = timers w /\ nextTimer w' = nextTimer w) as Hone.
  { intros x [= _ <-].
    exists [HttpGet (getProviderEndpoint c) (accessToken c)]. simpl.
    repeat split; try done; [|lia].
    constructor; [by left | constructor]. }
  destruct (outcome rt c (server (requests w))) as [evs|err]; [by eapply Hone|].
  destruct (unauthorized err); [|by eapply Hone].
  destruct (IH _ _ _ _ H) as (es & Ht & Hf & Hc & Hr & Hti & Hn).
  exists (es ++ [ConsoleWarn "Access token expired, attempting refresh";
                 HttpGet (getProviderEndpoint c) (accessToken c)])%list.
  simpl in *. rewrite <- app_assoc. simpl.
  rewrite !List.filter_app, !length_app. simpl.
  repeat split; try done; try lia.
  apply Forall_app. split; [done|].
  constructor; [by right|]. constructor; [by left | constructor].
Qed.

End Runs.

(** X7: whatever the server answers, a call of [fetchRemoteEvents] that
    returns has only added to the trace GET requests to the endpoint of
    the configuration, each with the same access token (a refresh does
    not change the token of the retry), and refresh warnings, one fewer
    than the requests. It has set and cleared no timer. *)
Theorem fetch_only_requests_and_warnings rt server fuel c w r w' :
  fetchRemoteEvents rt server fuel c w = Some (r, w') ->
  exists es,
    trace w' = (es ++ trace w)%list
    /\ Forall (fetchEffect c) es
    /\ length (List.filter isGet es) = S (length (List.filter isRefresh es))
    /\ timers w' = timers w.
Proof.
  intros H.
  destruct (fetch_frame rt server fuel c w r w' H)
    as (es & Ht & Hf & Hc & _ & Hti & _).
  by exists es.
Qed.

Lemma fetch_only_requests_and_warnings_witness :
  exists es,
    [HttpGet "https://caldav.icloud.com" "access"]
    = (es ++ trace quietWorld)%list
    /\ Forall (fetchEffect (configFor apple "timestamp")) es
    /\ length (List.filter isGet es) = S (length (List.filter isRefresh es))
    /\ timers quietWorld = timers quietWorld.
Proof.
  exact (fetch_only_requests_and_warnings Ecma.runtime
           (fun _ => NoResponse) 1 (configFor apple "timestamp") quietWorld
           (Throw (AxiosError None))
           {| requests := 1;
              trace := [HttpGet "https://caldav.icloud.com" "access"];
              timers := timers quietWorld; nextTimer := 2%positive |}
           eq_refl).
Defined.

(** X8: [fetchRemoteEvents] does not return while the server keeps
    answering 401: if every request from the next one on is answered 401,
    the call is still retrying after any number of requests. *)
Theorem fetch_loops_on_persistent_401 rt (server : nat -> Response) fuel c w :
  (forall n, (requests w <= n)%nat -> exists d, server n = Status 401 d) ->
  fetchRemoteEvents rt server fuel c w = None.
Proof.
  revert w. induction fuel as [|fuel IH]; intros w H; [done|].
  rewrite SyncProps.fetch_unfold. cbv zeta.
  pose proof (SyncProps.outcome_unauthorized rt c (server (requests w))) as Hu.
  destruct (H (requests w)) as [d Hd]; [lia|].
  rewrite Hd, Z.eqb_refl in Hu. rewrite Hd.
  destruct (outcome rt c (Status 401 d)) as [evs|err]; simpl in Hu; [done|].
  rewrite Hu. apply IH. intros n Hn. apply H. simpl in Hn. lia.
Qed.

Lemma fetch_loops_on_persistent_401_witness :
  fetchRemoteEvents Ecma.runtime
    (fun n => if (n <? 1)%nat then Status 200 (VArr []) else Status 401 VNull)
    50 (configFor outlook "local")
    {| requests := 1; trace := []; timers := ∅; nextTimer := 1%positive |}
  = None.
Proof.
  apply fetch_loops_on_persistent_401.
  intros n Hn. exists VNull. simpl in Hn.
  destruct n as [|n]; [lia | reflexivity].
Defined.

(** X9: what [initializeSync] leaves behind. When it succeeds, the handle
    of the service is the one [setInterval] has just given for a polling
    timer of 30000 ms, and a timer the service held before is cleared.
    When it fails, the service is as it was and so are the timers: no
    polling is started, and a polling timer that was running keeps
    running. *)
Theorem initializeSync_timers rt server fuel s w r s' w' :
  initializeSync rt server fuel s w = Some (r, s', w') ->
  match r with
  | Ok _ =>
      syncInterval s' = Some (nextTimer w)
      /\ timers w' = <[nextTimer w := Poll]>
                       (match syncInterval s with
                        | Some h => delete h (timers w)
                        | None => timers w
                        end)
      /\ head (trace w') = Some (SetInterval (nextTimer w) 30000)
  | Throw _ =>
      s' = s /\ timers w' = timers w
      /\ head (trace w')
         = Some (ConsoleError "Calendar sync initialization failed:")
  end.
Proof.
  unfold initializeSync. intros H.
  destruct (fetchRemoteEvents rt server fuel (config s) w)
    as [[[evs|err] w1]|] eqn:Ef; [| |done];
    destruct (fetch_frame rt server fuel _ _ _ _ Ef)
      as (es & _ & _ & _ & _ & Ht & Hn).
  - unfold startPolling, setInterval, clearInterval in H.
    destruct (syncInterval s) as [h|]; simpl in H;
      injection H as <- <- <-; simpl; by rewrite Ht, Hn.
  - injection H as <- <- <-. by simpl.
Qed.

Lemma initializeSync_timers_witness :
  syncInterval initialized.1 = Some (nextTimer quietWorld)
  /\ timers initialized.2 = <[nextTimer quietWorld := Poll]> (timers quietWorld)
  /\ head (trace initialized.2)
     = Some (SetInterval (nextTimer quietWorld) 30000).
Proof.
  exact (initializeSync_timers Ecma.runtime (fun _ => Status 200 (VArr [])) 1
           (new (configFor google "timestamp")) quietWorld
           (Ok []) initialized.1 initialized.2 eq_refl).
Defined.

Lemma startPolling_since w0 ms s w :
  since w0 (s, w) -> since w0 (startPolling ms s w).
Proof.
  intros (Hle & Hold & Hwf & Hh). unfold since, startPolling, setInterval,
    clearInterval in *. simpl in *.
  destruct (syncInterval s) as [h0|] eqn:E0; simpl.
  - specialize (Hh h0 eq_refl). repeat split; try lia.
    + intros h Hlt. rewrite lookup_insert_ne by lia.
      rewrite lookup_delete_ne by lia. by apply Hold.
    + intros h. destruct (decide (h = nextTimer w)) as [->|Hne]; [lia|].
      rewrite lookup_insert_ne by done.
      destruct (decide (h = h0)) as [->|Hne0].
      * rewrite lookup_delete_eq. by intros [? ?].
      * rewrite lookup_delete_ne by done. intros Hs%Hwf. lia.
    + injection H as <-. lia.
    + injection H as <-. lia.
  - repeat split; try lia.
    + intros h Hlt. rewrite lookup_insert_ne by lia. by apply Hold.
    + intros h. destruct (decide (h = nextTimer w)) as [->|Hne]; [lia|].
      rewrite lookup_insert_ne by done. intros Hs%Hwf. lia.
    + injection H as <-. lia.
    + injection H as <-. lia.
Qed.

Lemma stopSync_since w0 s w :
  since w0 (s, w) -> since w0 (stopSync s w).
Proof.
  intros (Hle & Hold & Hwf & Hh). unfold since, stopSync, clearInterval in *.
  simpl in *.
  destruct (syncInterval s) as [h0|] eqn:E0; simpl;
    [|repeat split; try done; congruence].
  specialize (Hh h0 eq_refl). repeat split; try done.
  - intros h Hlt. rewrite lookup_delete_ne by lia. by apply Hold.
  - intros h. destruct (decide (h = h0)) as [->|Hne0].
    + rewrite lookup_delete_eq. by intros [? ?].
    + rewrite lookup_delete_ne by done. apply Hwf.
Qed.

Lemma fetched_since rt server w0 fuel s w r w' :
  fetchRemoteEvents rt server fuel (config s) w = Some (r, w') ->
  since w0 (s, w) -> since w0 (s, w').
Proof.
  intros Hf. destruct (fetch_frame rt server fuel _ _ _ _ Hf)
    as (es & _ & _ & _ & _ & Ht & Hn).
  unfold since. simpl. by rewrite Ht, Hn.
Qed.

Lemma step_since rt server w0 x y :
  step rt server x y -> since w0 x -> since w0 y.
Proof.
  intros Hstep. destruct Hstep as
    [fuel s w r s' w' Hi | fuel s w r w' Hf | ms s w | s w | fuel h s w w' Hh Hp];
    intros Hx.
  - unfold initializeSync in Hi.
    destruct (fetchRemoteEvents rt server fuel (config s) w)
      as [[[evs|err] w1]|] eqn:Ef; [| |done].
    + pose proof (startPolling_since w0 30000 s w1
                    (fetched_since rt server w0 _ _ _ _ _ Ef Hx)) as H.
      destruct (startPolling 30000 s w1) as [s2 w2].
      by injection Hi as _ <- <-.
    + injection Hi as _ <- <-.
      by apply (fetched_since rt server w0 _ _ _ _ _ Ef).
  - by apply (fetched_since rt server w0 _ _ _ _ _ Hf).
  - by apply startPolling_since.
  - by apply stopSync_since.
  - unfold poll in Hp.
    destruct (fetchRemoteEvents rt server fuel (config s) w)
      as [[[evs|err] w1]|] eqn:Ef; [| |done]; injection Hp as <-;
      by apply (fetched_since rt server w0 _ _ _ _ _ Ef).
Qed.

(** X10: the service touches no timer but its own. Starting from a fresh
    service in a world whose timers all have handles already given,
    whatever sequence of [initializeSync], [startPolling], [stopSync],
    fetches and ticks follows, every timer that was active at the start
    is still active with the same callback: the service never clears or
    replaces a timer of somebody else, and the handles it gets are new. *)
Theorem foreign_timers_untouched rt server c w s' w' :
  wellFormed w ->
  rtc (step rt server) (new c, w) (s', w') ->
  (forall h cb, timers w !! h = Some cb -> timers w' !! h = Some cb)
  /\ (forall h, syncInterval s' = Some h -> timers w !! h = None)
  /\ wellFormed w'.
Proof.
  intros Hwf Hsteps.
  assert (since w (s', w')) as (Hle & Hold & Hwf' & Hh).
  { assert (forall x y, rtc (step rt server) x y -> since w x -> since w y)
      as Hrtc.
    { induction 1 as [x|x y z Hxy _ IH]; [done|].
      intros Hx. apply IH. by apply (step_since rt server w x y). }
    apply (Hrtc _ _ Hsteps). unfold since. simpl.
    repeat split; try done; try lia. }
  simpl in *. split; [|split; [|done]].
  - intros h cb Hcb. rewrite Hold; [done|]. apply Hwf. by exists cb.
  - intros h Hs. specialize (Hh h Hs).
    destruct (timers w !! h) as [cb|] eqn:E; [|done].
    assert (h < nextTimer w)%positive by (apply Hwf; by exists cb). lia.
Qed.

Lemma foreign_timers_untouched_witness :
  (forall h cb, timers quietWorld !! h = Some cb ->
                timers startedTwice.2 !! h = Some cb)
  /\ (forall h, syncInterval startedTwice.1 = Some h ->
                timers quietWorld !! h = None)
  /\ wellFormed startedTwice.2.
Proof.
  refine (foreign_timers_untouched Ecma.runtime (fun _ => NoResponse)
            (configFor google "timestamp") quietWorld
            startedTwice.1 startedTwice.2 _ _).
  - intros h. unfold quietWorld. simpl.
    destruct (decide (h = 1%positive)) as [->|Hne].
    + intros _. lia.
    + rewrite lookup_singleton_ne by done. by intros [? ?].
  - eapply rtc_l; [apply (step_start _ _ 1000)|].
    eapply rtc_l; [apply (step_start _ _ 500)|].
    apply rtc_refl.
Defined.

End SyncExtras.

(* ===================================================================== *)
(** * Pushing an event: properties                                        *)
(* ===================================================================== *)

Module PushProps.
Import Js CalendarSync Samples MoreSamples Notions Push.

Lemma settle_cases r :
  (exists d, settle r = Ok d) \/ (exists status, settle r = Throw (AxiosError status)).
Proof.
  destruct r as [code d|]; simpl; [|eauto].
  destruct ((200 <=? code) && (code <? 300)); eauto.
Qed.

(** X11: [pushEvent] sends at most one request and never retries. It
    sends none exactly when building the payload throws, and then hands
    that exception on with nothing logged. Otherwise it sends one POST to
    the endpoint of the configuration, with its access token and the
    payload, and succeeds exactly when the answer is a 2xx; any other
    answer, a 401 too, is logged once and thrown to the caller, with no
    token refresh and no second request. *)
Theorem pushEvent_single_request rt server s e w r w' :
  pushEvent rt server s e w = (r, w') ->
  (sent w' = sent w <->
     exists err, formatEventForProvider rt (config s) e = Throw err)
  /\ (forall err, formatEventForProvider rt (config s) e = Throw err ->
        r = Throw err /\ w' = w)
  /\ (forall p, formatEventForProvider rt (config s) e = Ok p ->
        sent w' = S (sent w)
        /\ ((r = Ok tt
             /\ (exists d, settle (server (sent w)) = Ok d)
             /\ log w' = HttpPost (getProviderEndpoint (config s))
                           (accessToken (config s)) p :: log w)
            \/ (exists status,
                  r = Throw (AxiosError status)
                  /\ settle (server (sent w)) = Throw (AxiosError status)
                  /\ log w' = LogError "Failed to push event to remote calendar:"
                              :: HttpPost (getProviderEndpoint (config s))
                                   (accessToken (config s)) p :: log w))).
Proof.
  unfold pushEvent, axios_post. intros H.
  destruct (formatEventForProvider rt (config s) e) as [p|err] eqn:Ef.
  - destruct (settle_cases (server (sent w))) as [[d Ed]|[st Ed]];
      rewrite Ed in H; injection H as <- <-; simpl.
    + split; [split; [lia | by intros [? ?]]|]. split; [done|].
      intros p' [= <-]. split; [done|]. left. eauto.
    + split; [split; [lia | by intros [? ?]]|]. split; [done|].
      intros p' [= <-]. split; [done|]. right. eauto.
  - injection H as <- <-. split; [split; eauto|].
    split; [by intros err' [= <-] | done].
Qed.

Lemma pushEvent_single_request_witness :
  sent {| sent := 1;
          log := [LogError "Failed to push event to remote calendar:";
                  HttpPost "https://calendar.example/api" "access"
                    (Same (event "edited here" "native" (Num 100)))] |}
  = S (sent nothingPushed)
  /\ ((Throw (AxiosError (Some 401)) = Ok tt
       /\ (exists d, settle (Status 401 VNull) = Ok d)
       /\ [LogError "Failed to push event to remote calendar:";
           HttpPost "https://calendar.example/api" "access"
             (Same (event "edited here" "native" (Num 100)))]
          = HttpPost "https://calendar.example/api" "access"
              (Same (event "edited here" "native" (Num 100)))
            :: log nothingPushed)
      \/ (exists status,
            Throw (AxiosError (Some 401)) = Throw (A := unit) (AxiosError status)
            /\ settle (Status 401 VNull) = Throw (AxiosError status)
            /\ [LogError "Failed to push event to remote calendar:";
                HttpPost "https://calendar.example/api" "access"
                  (Same (event "edited here" "native" (Num 100)))]
               = LogError "Failed to push event to remote calendar:"
                 :: HttpPost "https://calendar.example/api" "access"
                      (Same (event "edited here" "native" (Num 100)))
                 :: log nothingPushed)).
Proof.
  exact (proj2 (proj2 (pushEvent_single_request Ecma.runtime
                         (fun _ => Status 401 VNull)
                         (new (configFor custom "timestamp"))
                         (event "edited here" "native" (Num 100))
                         nothingPushed
                         (Throw (AxiosError (Some 401)))
                         {| sent := 1;
                            log := [LogError "Failed to push event to remote calendar:";
                                    HttpPost "https://calendar.example/api"
                                      "access"
                                      (Same (event "edited here" "native"
                                               (Num 100)))] |}
                         eq_refl))
           (Same (event "edited here" "native" (Num 100))) eq_refl).
Defined.

(** X12: an event read from an item whose start or end could not be made
    into a date cannot be pushed back to a known provider: [pushEvent]
    throws a [RangeError] before any request, and logs nothing. *)
Theorem unreadable_dates_block_push rt server c item e w :
  normalizeProviderEvents rt c (VArr [item]) = Ok [e] ->
  newDate rt (startField (provider c) item) = Ok NaN
  \/ newDate rt (endField (provider c) item) = Ok NaN ->
  pushEvent rt server (new c) e w = (Throw RangeError, w).
Proof.
  intros Hn Hnan.
  assert (provider c <> custom) as Hp.
  { intros E. unfold normalizeProviderEvents in Hn. by rewrite E in Hn. }
  destruct (AdapterProps.normalize_keeps_single rt c item e Hp Hn)
    as (Hs & He & _).
  rewrite Hs, He in Hnan.
  assert (startTime e = NaN \/ endTime e = NaN) as Hnan'
    by (destruct Hnan as [[=]|[=]]; auto).
  clear Hnan. rename Hnan' into Hnan.
  unfold pushEvent, formatEventForProvider. simpl.
  destruct (provider c); try done; simpl;
    destruct (startTime e), (endTime e); simpl; try done;
    destruct Hnan; done.
Qed.

Lemma unreadable_dates_block_push_witness :
  pushEvent Ecma.runtime (fun _ => Status 200 VNull)
    (new (configFor apple "timestamp")) undatedEvent nothingPushed
  = (Throw RangeError, nothingPushed).
Proof.
  refine (unreadable_dates_block_push Ecma.runtime (fun _ => Status 200 VNull)
            (configFor apple "timestamp") appleItemBare undatedEvent
            nothingPushed _ (or_introl eq_refl)).
  vm_compute. reflexivity.
Defined.

End PushProps.

(* ===================================================================== *)
(** * The realtime channel: further properties                            *)
(* ===================================================================== *)

Module RealtimeExtras.
Import Js RealtimeSync RealtimeCalls.

Lemma call_channel c s :
  emitted <$> socket (call c s) = channel [c] (emitted <$> socket s).
Proof.
  destruct c; simpl;
    unfold connect, disconnect, sendOperations, sendCursorUpdate,
      joinCalendar, leaveCalendar;
    destruct (socket s) as [k|] eqn:E; simpl; rewrite ?E; reflexivity.
Qed.

Lemma channel_step c rest now :
  channel (c :: rest) now = channel rest (channel [c] now).
Proof. destruct c; reflexivity. Qed.

(** X13: what the service holds to send, after any sequence of calls of
    its methods from any state, is what an observer of the calls expects:
    no socket after a [disconnect]; after a [connect] a socket with
    nothing to send, whatever was sent before; and on an open socket
    every packet sent since, in the order of the calls. Packets sent
    while there is no socket appear nowhere, then or later. *)
Theorem run_follows_channel calls s :
  emitted <$> socket (run calls s) = channel calls (emitted <$> socket s).
Proof.
  revert s. induction calls as [|c calls IH]; intros s; [done|].
  unfold run in *. simpl fold_left. rewrite IH, channel_step.
  by rewrite call_channel.
Qed.

Lemma call_keeps_identity c s :
  token (call c s) = token s /\ url (call c s) = url s
  /\ ((forall k, socket s = Some k -> socketOf (url s) (token s) k) ->
      forall k, socket (call c s) = Some k -> socketOf (url s) (token s) k).
Proof.
  split; [|split].
  - destruct c; simpl;
      unfold connect, disconnect, sendOperations, sendCursorUpdate,
        joinCalendar, leaveCalendar; by destruct (socket s).
  - destruct c; simpl;
      unfold connect, disconnect, sendOperations, sendCursorUpdate,
        joinCalendar, leaveCalendar; by destruct (socket s).
  - intros Hs k Hk.
    destruct c; simpl in Hk;
      unfold connect, disconnect, sendOperations, sendCursorUpdate,
        joinCalendar, leaveCalendar in Hk;
      destruct (socket s) as [k0|] eqn:E; simpl in Hk; rewrite ?E in Hk;
      try discriminate Hk; injection Hk as <-; unfold socketOf; simpl;
      try done; try apply (Hs k0 eq_refl); by apply Hs.
Qed.

(** X14: no call changes the url or the token of the service, and the
    socket, whenever there is one, is one opened at that url with that
    token and listening to exactly [operations], [cursorUpdate],
    [userJoined] and [userLeft]: sending adds no listener and a
    reconnect uses the token the service was built with. *)
Theorem run_keeps_identity calls u t :
  token (run calls (new u t)) = t
  /\ url (run calls (new u t)) = u
  /\ forall k, socket (run calls (new u t)) = Some k -> socketOf u t k.
Proof.
  assert (forall s, token s = t -> url s = u ->
            (forall k, socket s = Some k -> socketOf u t k) ->
            token (run calls s) = t /\ url (run calls s) = u
            /\ forall k, socket (run calls s) = Some k -> socketOf u t k)
    as Hgen.
  { induction calls as [|c calls IH]; intros s Ht Hu Hs; [done|].
    unfold run in *. simpl fold_left.
    destruct (call_keeps_identity c s) as (Ht' & Hu' & Hs').
    rewrite Ht, Hu in *. apply IH; [done | done | by apply Hs']. }
  by apply Hgen.
Qed.

End RealtimeExtras.
